(** * TurfFormModal: validation, image staging and submission

    A shallow embedding of
    [kickoff-frontend/src/components/TurfFormModal.jsx]:
    the form validation ([validateForm]), the image staging handlers
    ([handleImageSelect], [removeNewImage], [removeExistingImage]), the
    upload-then-save sequence ([uploadImages], [handleSubmit]) and the
    image reference helper ([getImageUrl]).

    JavaScript strings are sequences of UTF-16 code units; the React state
    of the component is a record; the handlers are written in a small
    state-and-exception monad that also records the calls made to the
    outside world (HTTP client, turf service, [alert], [FileReader]). *)

From Stdlib Require Import String Ascii.
From Stdlib Require Import List NArith ZArith Bool Lia Permutation.
Import ListNotations.

Set Implicit Arguments.

(* ================================================================== *)
(** ** The JavaScript built-ins the component uses *)
(* ================================================================== *)

Module JS.

(** A string value: its UTF-16 code units, in order. *)
Definition char16 := N.
Definition jsstring := list char16.

(** An ASCII literal of the source, as code units. *)
Definition lit (s : string) : jsstring :=
  List.map N_of_ascii (list_ascii_of_string s).

Definition char16_eq_dec : forall a b : char16, {a = b} + {a <> b} := N.eq_dec.
Definition jsstring_eq_dec : forall a b : jsstring, {a = b} + {a <> b} :=
  list_eq_dec N.eq_dec.

(** [s.length] *)
Definition str_length (s : jsstring) : N := N.of_nat (List.length s).

(** [!s] for a string: only the empty string is falsy. *)
Definition falsy (s : jsstring) : bool :=
  match s with [] => true | _ :: _ => false end.

(** [a || b] on strings. *)
Definition or_else (a b : jsstring) : jsstring :=
  if falsy a then b else a.

(** [a || b] where [a] may be [undefined] (an optional chain that broke). *)
Definition opt_or_else (a : option jsstring) (b : jsstring) : jsstring :=
  match a with
  | Some s => or_else s b
  | None => b
  end.

(** [s.startsWith(p)] *)
Fixpoint startsWith (s p : jsstring) {struct p} : bool :=
  match p, s with
  | [], _ => true
  | _ :: _, [] => false
  | a :: p', b :: s' => N.eqb a b && startsWith s' p'
  end.

(** [parts.join(sep)] *)
Fixpoint join (sep : jsstring) (parts : list jsstring) : jsstring :=
  match parts with
  | [] => []
  | [p] => p
  | p :: rest => p ++ sep ++ join sep rest
  end.

(** WhiteSpace and LineTerminator code units, the set that [trim] and
    [parseFloat] strip: TAB, LF, VT, FF, CR, SP, NBSP, U+1680,
    U+2000..U+200A, LS, PS, U+202F, U+205F, U+3000 and the BOM. *)
Definition is_white_space (c : char16) : bool :=
  ((9 <=? c) && (c <=? 13) || (c =? 32) || (c =? 160) || (c =? 5760)
   || (8192 <=? c) && (c <=? 8202) || (c =? 8232) || (c =? 8233)
   || (c =? 8239) || (c =? 8287) || (c =? 12288) || (c =? 65279))%N.

(** [s.trimStart()], [s.trimEnd()], [s.trim()] *)
Fixpoint trimStart (s : jsstring) : jsstring :=
  match s with
  | [] => []
  | c :: s' => if is_white_space c then trimStart s' else s
  end.

Definition trimEnd (s : jsstring) : jsstring := rev (trimStart (rev s)).

Definition trim (s : jsstring) : jsstring := trimEnd (trimStart s).

(** [a < b] on two strings: code unit by code unit, a proper prefix
    being smaller. *)
Fixpoint str_lt (a b : jsstring) : bool :=
  match a, b with
  | _, [] => false
  | [], _ :: _ => true
  | x :: a', y :: b' =>
      if N.ltb x y then true
      else if N.eqb x y then str_lt a' b'
      else false
  end.

(** [a >= b] on two strings is the negation of [a < b] (no operand is
    [NaN] or [undefined]). *)
Definition str_ge (a b : jsstring) : bool := negb (str_lt a b).

(** *** Numbers, as far as a comparison with zero can tell them apart

    A number produced by [parseFloat] is kept as the decimal it was read
    from: sign, digits [m] and decimal exponent [e] stand for
    (-1)^neg * m * 10^e, which the engine then rounds to binary64
    (round to nearest, ties to even; the leeway engines have beyond 20
    significant digits is not modelled). *)
Inductive number : Type :=
| NaN
| Infinity (neg : bool)
| Decimal (neg : bool) (m : N) (e : Z).

(** The decimal [m * 10^e] rounds to zero exactly when it is at most
    2^-1075, half of the least positive binary64 value. *)
Definition rounds_to_zero (m : N) (e : Z) : bool :=
  if (m =? 0)%N then true
  else if (0 <=? e)%Z then false
  else (Z.of_N m * 2 ^ 1075 <=? 10 ^ (- e))%Z.

(** [x <= 0] *)
Definition le_zero (x : number) : bool :=
  match x with
  | NaN => false
  | Infinity neg => neg
  | Decimal neg m e => neg || rounds_to_zero m e
  end.

(** [x > 0] *)
Definition gt_zero (x : number) : bool :=
  match x with
  | NaN => false
  | Infinity neg => negb neg
  | Decimal neg m e => negb neg && negb (rounds_to_zero m e)
  end.

Definition is_NaN (x : number) : bool :=
  match x with NaN => true | _ => false end.

(** *** [parseFloat] *)

Definition is_digit (c : char16) : bool := ((48 <=? c) && (c <=? 57))%N.

(** The leading decimal digits of [s] and what follows them. *)
Fixpoint span_digits (s : jsstring) : jsstring * jsstring :=
  match s with
  | [] => ([], [])
  | c :: s' =>
      if is_digit c
      then let (ds, rest) := span_digits s' in (c :: ds, rest)
      else ([], s)
  end.

(** The value of a run of decimal digits. *)
Definition digits_value (ds : jsstring) : N :=
  fold_left (fun acc c => (10 * acc + (c - 48))%N) ds 0%N.

(** ExponentPart: [e] or [E], an optional sign, at least one digit.
    Anything else is not part of the literal and counts as exponent 0. *)
Definition parse_exponent (s : jsstring) : Z :=
  match s with
  | c :: s1 =>
      if ((c =? 101) || (c =? 69))%N then
        let (neg, s2) :=
          match s1 with
          | d :: s2 =>
              if (d =? 45)%N then (true, s2)
              else if (d =? 43)%N then (false, s2)
              else (false, s1)
          | [] => (false, s1)
          end in
        match fst (span_digits s2) with
        | [] => 0%Z
        | ds => if neg then (- Z.of_N (digits_value ds))%Z
                else Z.of_N (digits_value ds)
        end
      else 0%Z
  | [] => 0%Z
  end.

(** StrUnsignedDecimalLiteral: [Infinity], or digits with an optional
    fraction (at least one digit on either side of the point) and an
    optional exponent.  The longest such prefix is read. *)
Definition parse_unsigned (neg : bool) (s : jsstring) : number :=
  if startsWith s (lit "Infinity") then Infinity neg
  else
    let (ints, r1) := span_digits s in
    let (fracs, r2) :=
      match r1 with
      | c :: r1' => if (c =? 46)%N then span_digits r1' else ([], r1)
      | [] => ([], r1)
      end in
    match ints ++ fracs with
    | [] => NaN
    | ds =>
        Decimal neg (digits_value ds)
                (parse_exponent r2 - Z.of_nat (List.length fracs))
    end.

(** [parseFloat(s)]: leading white space is skipped, then an optional
    sign and an unsigned literal; no literal gives [NaN]. *)
Definition parseFloat (s : jsstring) : number :=
  match trimStart s with
  | c :: s' =>
      if (c =? 45)%N then parse_unsigned true s'
      else if (c =? 43)%N then parse_unsigned false s'
      else parse_unsigned false (c :: s')
  | [] => NaN
  end.

End JS.

Import JS.

Local Open Scope list_scope.

(* ================================================================== *)
(** ** The data of the component *)
(* ================================================================== *)

(** A [File] handed over by the file input.  [dataURL] is what a
    [FileReader] reports in [reader.result] once [readAsDataURL] has
    finished ([None] when the read failed and the result is [null]). *)
Module File.
Record t : Type := mk {
  name : jsstring;
  type : jsstring;
  size : N;
  dataURL : option jsstring
}.
End File.

(** The [formData] state object. *)
Record FormData : Type := mkFormData {
  name : jsstring;
  phone : jsstring;
  location : jsstring;
  type : jsstring;
  pricePerSlot : jsstring;
  description : jsstring;
  operatingStartTime : jsstring;
  operatingEndTime : jsstring
}.

(** The [turf] prop in edit mode: the stored entity.  A field the backend
    left out is [None]; a numeric price is kept as its decimal text, which
    is what [parseFloat] reads of it. *)
Module Turf.
Record t : Type := mk {
  id : N;
  name : option jsstring;
  phone : option jsstring;
  location : option jsstring;
  type : option jsstring;
  pricePerSlot : option jsstring;
  description : option jsstring;
  operatingStartTime : option jsstring;
  operatingEndTime : option jsstring;
  imageUrls : option (list jsstring)
}.
End Turf.

(** The [user] of the auth context. *)
Record User : Type := mkUser { userId : N }.

(** The props and surroundings of one component instance: the turf being
    edited (absent in create mode), the signed-in user (absent while the
    auth context has none) and the build-time [VITE_API_URL]. *)
Record Props : Type := mkProps {
  turf : option Turf.t;
  user : option User;
  VITE_API_URL : option jsstring
}.

(** The state hooks of the component. *)
Record State : Type := mkState {
  formData : FormData;
  error : jsstring;
  loading : bool;
  imageFiles : list File.t;
  existingImages : list jsstring;
  imagePreviewUrls : list (option jsstring);
  uploadingImages : bool
}.

(** The object sent to the turf service: [{...formData, imageUrls}] with
    [ownerId] added on create. *)
Record Payload : Type := mkPayload {
  fields : FormData;
  ownerId : option N;
  imageUrls : list jsstring
}.

(** One entry of [response.data.files]. *)
Record UploadedFile : Type := mkUploadedFile { fileUrl : jsstring }.

(** [response.data] of the upload endpoint. *)
Record UploadResponse : Type := mkUploadResponse { files : list UploadedFile }.

(** A thrown error object: its [message] and, for an HTTP failure,
    [err.response?.data?.error] ([None] when that chain is [undefined]). *)
Record Error : Type := mkError {
  message : jsstring;
  response_data_error : option jsstring
}.

(** How an awaited promise settles.  For the upload, [Rejected] also
    stands for a response without the [files] array: reading it throws
    inside the same [try]. *)
Inductive settled (A : Type) : Type :=
| Resolved (a : A)
| Rejected (err : Error).
Arguments Resolved {A} a.
Arguments Rejected {A} err.

(** The collaborators the component awaits: [api.post] on the upload
    endpoint and the two [turfService] calls. *)
Record Collaborators : Type := mkCollaborators {
  api_post : jsstring -> list File.t -> settled UploadResponse;
  updateTurf : N -> Payload -> settled unit;
  createTurf : Payload -> settled unit
}.

(** What the component does to the outside, in the order it does it.
    [SetError] records each call of the [error] setter (only the last one
    of a handler run is left in the state). *)
Inductive event : Type :=
| SetError (msg : jsstring)
| ApiPost (url : jsstring) (batch : list File.t)
| UpdateTurf (id : N) (payload : Payload)
| CreateTurf (payload : Payload)
| Alert (msg : jsstring)
| OnSuccess
| ReadAsDataURL (file : File.t)
| ClearInput.

(* ================================================================== *)
(** ** A monad for handlers: state, trace and exceptions *)
(* ================================================================== *)

Inductive completion (A : Type) : Type :=
| Normal (a : A)
| Throw (err : Error).
Arguments Normal {A} a.
Arguments Throw {A} err.

Record Machine : Type := mkMachine {
  state : State;
  trace : list event
}.

Definition M (A : Type) : Type := Machine -> completion A * Machine.

Definition ret {A} (a : A) : M A := fun m => (Normal a, m).

Definition bind {A B} (c : M A) (k : A -> M B) : M B :=
  fun m =>
    match c m with
    | (Normal a, m') => k a m'
    | (Throw err, m') => (Throw err, m')
    end.

Definition throw {A} (err : Error) : M A := fun m => (Throw err, m).

(** [try { body } catch (err) { handler } finally { finalizer }] *)
Definition try_catch_finally {A} (body : M A) (handler : Error -> M A)
    (finalizer : M unit) : M A :=
  fun m =>
    let (r, m1) :=
      match body m with
      | (Normal a, m') => (Normal a, m')
      | (Throw err, m') => handler err m'
      end in
    match finalizer m1 with
    | (Normal _, m2) => (r, m2)
    | (Throw err, m2) => (Throw err, m2)
    end.

Definition modify (f : State -> State) : M unit :=
  fun m => (Normal tt, mkMachine (f (state m)) (trace m)).

Definition emit (e : event) : M unit :=
  fun m => (Normal tt, mkMachine (state m) (trace m ++ [e])).

(** [await promise] *)
Definition await {A} (p : settled A) : M A :=
  match p with
  | Resolved a => ret a
  | Rejected err => throw err
  end.

Declare Scope handler_scope.
Delimit Scope handler_scope with handler.
Notation "x <- c ;; k" := (bind c (fun x => k))
  (at level 61, c at next level, right associativity) : handler_scope.
Notation "c ;; k" := (bind c (fun _ => k))
  (at level 61, right associativity) : handler_scope.
Local Open Scope handler_scope.

(** A handler run on its own, from a state and an empty trace. *)
Definition run {A} (c : M A) (s : State) : completion A * Machine :=
  c (mkMachine s []).

(** The state setters. *)
Definition with_error (v : jsstring) (s : State) : State :=
  mkState (formData s) v (loading s) (imageFiles s) (existingImages s)
          (imagePreviewUrls s) (uploadingImages s).
Definition with_loading (v : bool) (s : State) : State :=
  mkState (formData s) (error s) v (imageFiles s) (existingImages s)
          (imagePreviewUrls s) (uploadingImages s).
Definition with_imageFiles (v : list File.t) (s : State) : State :=
  mkState (formData s) (error s) (loading s) v (existingImages s)
          (imagePreviewUrls s) (uploadingImages s).
Definition with_existingImages (v : list jsstring) (s : State) : State :=
  mkState (formData s) (error s) (loading s) (imageFiles s) v
          (imagePreviewUrls s) (uploadingImages s).
Definition with_imagePreviewUrls (v : list (option jsstring)) (s : State) : State :=
  mkState (formData s) (error s) (loading s) (imageFiles s) (existingImages s)
          v (uploadingImages s).
Definition with_uploadingImages (v : bool) (s : State) : State :=
  mkState (formData s) (error s) (loading s) (imageFiles s) (existingImages s)
          (imagePreviewUrls s) v.
Definition with_formData (v : FormData) (s : State) : State :=
  mkState v (error s) (loading s) (imageFiles s) (existingImages s)
          (imagePreviewUrls s) (uploadingImages s).

Definition setError (msg : jsstring) : M unit :=
  emit (SetError msg) ;; modify (with_error msg).
Definition setLoading (v : bool) : M unit := modify (with_loading v).
Definition setUploadingImages (v : bool) : M unit := modify (with_uploadingImages v).
Definition setImageFiles (f : list File.t -> list File.t) : M unit :=
  modify (fun s => with_imageFiles (f (imageFiles s)) s).
Definition setExistingImages (f : list jsstring -> list jsstring) : M unit :=
  modify (fun s => with_existingImages (f (existingImages s)) s).
Definition setImagePreviewUrls
    (f : list (option jsstring) -> list (option jsstring)) : M unit :=
  modify (fun s => with_imagePreviewUrls (f (imagePreviewUrls s)) s).

(* ================================================================== *)
(** ** The component *)
(* ================================================================== *)

(** [useState] initial values. *)
Definition initialFormData : FormData :=
  mkFormData [] [] [] (lit "FOOTBALL") [] [] (lit "06:00") (lit "22:00").

Definition initialState : State :=
  mkState initialFormData [] false [] [] [] false.

Definition sportTypes : list jsstring :=
  [lit "FOOTBALL"; lit "CRICKET"; lit "BADMINTON"; lit "TENNIS";
   lit "BASKETBALL"; lit "VOLLEYBALL"; lit "HOCKEY"; lit "FUTSAL"].

(** [10 * 1024 * 1024] *)
Definition MAX_IMAGE_SIZE : N := 10 * 1024 * 1024.

(** [arr.filter((_, i) => i !== index)] *)
Fixpoint remove_at {A} (index : nat) (l : list A) : list A :=
  match l, index with
  | [], _ => []
  | _ :: l', O => l'
  | x :: l', S i => x :: remove_at i l'
  end.

(** [arr.forEach(f)] *)
Fixpoint forEach {A} (f : A -> M unit) (l : list A) : M unit :=
  match l with
  | [] => ret tt
  | x :: l' => f x ;; forEach f l'
  end.

Section Component.

Variable props : Props.
Variable io : Collaborators.

(** [import.meta.env.VITE_API_URL || 'http://localhost:8080/api'] *)
Definition API_URL : jsstring :=
  opt_or_else (VITE_API_URL props) (lit "http://localhost:8080/api").

(** The effect run when [turf] is set: the form and the retained image
    references are seeded from the stored entity. *)
Definition useEffect_turf : M unit :=
  match turf props with
  | Some t =>
      modify (with_formData
        (mkFormData
           (opt_or_else (Turf.name t) [])
           (opt_or_else (Turf.phone t) [])
           (opt_or_else (Turf.location t) [])
           (opt_or_else (Turf.type t) (lit "FOOTBALL"))
           (opt_or_else (Turf.pricePerSlot t) [])
           (opt_or_else (Turf.description t) [])
           (opt_or_else (Turf.operatingStartTime t) (lit "06:00"))
           (opt_or_else (Turf.operatingEndTime t) (lit "22:00")))) ;;
      match Turf.imageUrls t with
      | Some urls =>
          if (0 <? List.length urls)%nat
          then setExistingImages (fun _ => urls)
          else ret tt
      | None => ret tt
      end
  | None => ret tt
  end.

(** [{ ...formData, [key]: value }] for the fields the form has inputs
    for; another key would add a property that nothing reads. *)
Definition set_field (key value : jsstring) (f : FormData) : FormData :=
  if jsstring_eq_dec key (lit "name") then
    mkFormData value (phone f) (location f) (type f) (pricePerSlot f)
               (description f) (operatingStartTime f) (operatingEndTime f)
  else if jsstring_eq_dec key (lit "phone") then
    mkFormData (name f) value (location f) (type f) (pricePerSlot f)
               (description f) (operatingStartTime f) (operatingEndTime f)
  else if jsstring_eq_dec key (lit "location") then
    mkFormData (name f) (phone f) value (type f) (pricePerSlot f)
               (description f) (operatingStartTime f) (operatingEndTime f)
  else if jsstring_eq_dec key (lit "type") then
    mkFormData (name f) (phone f) (location f) value (pricePerSlot f)
               (description f) (operatingStartTime f) (operatingEndTime f)
  else if jsstring_eq_dec key (lit "pricePerSlot") then
    mkFormData (name f) (phone f) (location f) (type f) value
               (description f) (operatingStartTime f) (operatingEndTime f)
  else if jsstring_eq_dec key (lit "description") then
    mkFormData (name f) (phone f) (location f) (type f) (pricePerSlot f)
               value (operatingStartTime f) (operatingEndTime f)
  else if jsstring_eq_dec key (lit "operatingStartTime") then
    mkFormData (name f) (phone f) (location f) (type f) (pricePerSlot f)
               (description f) value (operatingEndTime f)
  else if jsstring_eq_dec key (lit "operatingEndTime") then
    mkFormData (name f) (phone f) (location f) (type f) (pricePerSlot f)
               (description f) (operatingStartTime f) value
  else f.

(** [handleChange], on [e.target.name] and [e.target.value]; [c] is the
    state of the render the handler belongs to. *)
Definition handleChange (c : State) (key value : jsstring) : M unit :=
  modify (with_formData (set_field key value (formData c))) ;;
  setError [].

(** The type filter of [handleImageSelect]:
    [files.filter(file => { ... setError(...) ... return isValid })]. *)
Fixpoint filter_valid (files : list File.t) : M (list File.t) :=
  match files with
  | [] => ret []
  | file :: rest =>
      let isValid := startsWith (File.type file) (lit "image/") in
      (if negb isValid
       then setError (File.name file ++ lit " is not a valid image file")
       else ret tt) ;;
      valid <- filter_valid rest ;;
      ret (if isValid then file :: valid else valid)
  end.

(** [file.size > 10 * 1024 * 1024] *)
Definition oversized (file : File.t) : bool :=
  (MAX_IMAGE_SIZE <? File.size file)%N.

(** [handleImageSelect], on the files of the change event. *)
Definition handleImageSelect (files : list File.t) : M unit :=
  validFiles <- filter_valid files ;;
  let oversizedFiles := filter oversized validFiles in
  if (0 <? List.length oversizedFiles)%nat then
    setError (lit "Some files exceed 10MB limit: "
              ++ join (lit ", ") (map File.name oversizedFiles))
  else
    setImageFiles (fun prev => prev ++ validFiles) ;;
    forEach (fun file => emit (ReadAsDataURL file)) validFiles ;;
    emit ClearInput.

(** [reader.onloadend] of the reader started for [file]. *)
Definition onloadend (file : File.t) : M unit :=
  setImagePreviewUrls (fun prev => prev ++ [File.dataURL file]).

Definition removeNewImage (index : nat) : M unit :=
  setImageFiles (remove_at index) ;;
  setImagePreviewUrls (remove_at index).

Definition removeExistingImage (index : nat) : M unit :=
  setExistingImages (remove_at index).

(** The handlers below read the state through the closure of the render
    that created them ([c]); their setters act on the current state.
    Console output is not modelled. *)

Definition uploadImages (c : State) : M (list jsstring) :=
  if (List.length (imageFiles c) =? 0)%nat then ret []
  else
    setUploadingImages true ;;
    try_catch_finally
      (emit (ApiPost (lit "/files/upload-multiple") (imageFiles c)) ;;
       response <- await (api_post io (lit "/files/upload-multiple") (imageFiles c)) ;;
       ret (map fileUrl (files response)))
      (fun err =>
         throw (mkError
                  (lit "Failed to upload images: "
                   ++ opt_or_else (response_data_error err) (message err))
                  None))
      (setUploadingImages false).

Definition validateForm (c : State) : M bool :=
  if falsy (trim (name (formData c))) then
    setError (lit "Turf name is required") ;; ret false
  else if (str_length (phone (formData c)) <? 10)%N then
    setError (lit "Phone number must be at least 10 digits") ;; ret false
  else if falsy (trim (location (formData c))) then
    setError (lit "Location is required") ;; ret false
  else if falsy (pricePerSlot (formData c))
          || le_zero (parseFloat (pricePerSlot (formData c))) then
    setError (lit "Valid price is required") ;; ret false
  else if str_ge (operatingStartTime (formData c))
                 (operatingEndTime (formData c)) then
    setError (lit "End time must be after start time") ;; ret false
  else ret true.

(** [user.userId]; reading it off a missing user throws a [TypeError]. *)
Definition user_userId : M N :=
  match user props with
  | Some u => ret (userId u)
  | None =>
      throw (mkError (lit "Cannot read properties of null (reading 'userId')")
                     None)
  end.

Definition handleSubmit (c : State) : M unit :=
  setError [] ;;
  ok <- validateForm c ;;
  if negb ok then ret tt
  else
    setLoading true ;;
    try_catch_finally
      (newImageUrls <- uploadImages c ;;
       let allImageUrls := existingImages c ++ newImageUrls in
       owner <- user_userId ;;
       let turfData := mkPayload (formData c) (Some owner) allImageUrls in
       match turf props with
       | Some t =>
           emit (UpdateTurf (Turf.id t)
                            (mkPayload (formData c) None allImageUrls)) ;;
           await (updateTurf io (Turf.id t)
                             (mkPayload (formData c) None allImageUrls)) ;;
           emit (Alert (lit "Turf updated successfully!"))
       | None =>
           emit (CreateTurf turfData) ;;
           await (createTurf io turfData) ;;
           emit (Alert (lit "Turf created successfully!"))
       end ;;
       emit OnSuccess)
      (fun err =>
         setError (or_else (message err)
                           (lit "Failed to save turf. Please try again.")))
      (setLoading false).

(** [getImageUrl]; [None] is [null] (or [undefined]) on either side. *)
Definition getImageUrl (imageUrl : option jsstring) : option jsstring :=
  match imageUrl with
  | None => None
  | Some url =>
      if falsy url then None
      else if startsWith url (lit "http://") || startsWith url (lit "https://")
      then Some url
      else if startsWith url (lit "/api")
      then Some (lit "http://localhost:8080" ++ url)
      else Some (lit "http://localhost:8080/api/files/" ++ url)
  end.

Definition totalImages (c : State) : nat :=
  List.length (existingImages c) + List.length (imageFiles c).

End Component.

(* ================================================================== *)
(** ** The vocabulary of the specification *)
(* ================================================================== *)

(** The five rule violations, and the message the component shows for
    each of them. *)
Inductive ValidationError : Type :=
| EmptyName
| PhoneTooShort
| EmptyLocation
| InvalidPrice
| InvalidTimeRange.

Definition error_message (e : ValidationError) : jsstring :=
  match e with
  | EmptyName => lit "Turf name is required"
  | PhoneTooShort => lit "Phone number must be at least 10 digits"
  | EmptyLocation => lit "Location is required"
  | InvalidPrice => lit "Valid price is required"
  | InvalidTimeRange => lit "End time must be after start time"
  end.

(** The machine after one call of [setError msg]. *)
Definition reported (msg : jsstring) (m : Machine) : Machine :=
  mkMachine (with_error msg (state m)) (trace m ++ [SetError msg]).

(** [validateForm] fails with [e]: it returns [false] and its one effect is
    to report the message of [e]. *)
Definition fails_with (c : State) (e : ValidationError) : Prop :=
  forall m, validateForm c m = (Normal false, reported (error_message e) m).

(** [validateForm] succeeds: it returns [true] and does nothing else. *)
Definition succeeds (c : State) : Prop :=
  forall m, validateForm c m = (Normal true, m).

(** Lexicographic order on strings, by code units. *)
Inductive lex_lt : jsstring -> jsstring -> Prop :=
| lex_lt_nil : forall y b, lex_lt [] (y :: b)
| lex_lt_head : forall x y a b, (x < y)%N -> lex_lt (x :: a) (y :: b)
| lex_lt_tail : forall x a b, lex_lt a b -> lex_lt (x :: a) (x :: b).

(** A string is blank when it has nothing but white space. *)
Definition blank (s : jsstring) : Prop :=
  Forall (fun ch => is_white_space ch = true) s.

(** The five rules, in the words of the specification. *)
Definition name_rule (f : FormData) : Prop := trim (name f) <> [].
Definition phone_rule (f : FormData) : Prop := 10 <= List.length (phone f).
Definition location_rule (f : FormData) : Prop := trim (location f) <> [].
Definition price_rule (f : FormData) : Prop :=
  pricePerSlot f <> [] /\ gt_zero (parseFloat (pricePerSlot f)) = true.
Definition time_rule (f : FormData) : Prop :=
  lex_lt (operatingStartTime f) (operatingEndTime f).

(** The price field holds what a number input can deliver: nothing, or
    text that [parseFloat] reads as a number. *)
Definition price_numeric (f : FormData) : Prop :=
  pricePerSlot f = [] \/ is_NaN (parseFloat (pricePerSlot f)) = false.

(** Rules checked in order, the first failure reported, success when all
    five hold. *)
Definition first_failure_reported (c : State) : Prop :=
  let f := formData c in
  (~ name_rule f -> fails_with c EmptyName)
  /\ (name_rule f -> ~ phone_rule f -> fails_with c PhoneTooShort)
  /\ (name_rule f -> phone_rule f -> ~ location_rule f ->
      fails_with c EmptyLocation)
  /\ (name_rule f -> phone_rule f -> location_rule f -> ~ price_rule f ->
      fails_with c InvalidPrice)
  /\ (name_rule f -> phone_rule f -> location_rule f -> price_rule f ->
      ~ time_rule f -> fails_with c InvalidTimeRange)
  /\ (name_rule f -> phone_rule f -> location_rule f -> price_rule f ->
      time_rule f -> succeeds c).

(** [InvalidPrice] is the outcome exactly when the price rule fails, once
    the three rules before it pass. *)
Definition price_rejected_iff_rule_fails (c : State) : Prop :=
  let f := formData c in
  name_rule f -> phone_rule f -> location_rule f ->
  (fails_with c InvalidPrice <-> ~ price_rule f).

(** The checks of [validateForm] as one pure function of the form: the
    first violated check, if any. *)
Definition first_violation (f : FormData) : option ValidationError :=
  if falsy (trim (name f)) then Some EmptyName
  else if (str_length (phone f) <? 10)%N then Some PhoneTooShort
  else if falsy (trim (location f)) then Some EmptyLocation
  else if falsy (pricePerSlot f) || le_zero (parseFloat (pricePerSlot f))
  then Some InvalidPrice
  else if str_ge (operatingStartTime f) (operatingEndTime f)
  then Some InvalidTimeRange
  else None.

(** A declared media type of the image family. *)
Definition is_image (file : File.t) : bool :=
  startsWith (File.type file) (lit "image/").

(** Accepted by the type filter and within the size limit. *)
Definition accepted_within_size (file : File.t) : bool :=
  is_image file && negb (oversized file).

(** The warning for a file of another media type. *)
Definition not_image_warning (file : File.t) : jsstring :=
  File.name file ++ lit " is not a valid image file".

(** The per-file warnings of a batch, in selection order. *)
Definition type_warnings (files : list File.t) : list jsstring :=
  map not_image_warning (filter (fun file => negb (is_image file)) files).

(** The oversized files of a batch, after type filtering. *)
Definition oversized_accepted (files : list File.t) : list File.t :=
  filter oversized (filter is_image files).

(** The aggregate warning for a batch with oversized files. *)
Definition oversize_warning (files : list File.t) : jsstring :=
  lit "Some files exceed 10MB limit: "
  ++ join (lit ", ") (map File.name (oversized_accepted files)).

(** [x] occurs in [s]. *)
Definition occurs_in (x s : jsstring) : Prop :=
  exists before after, s = before ++ x ++ after.

(** The machine after a run of [setError] calls. *)
Definition reported_all (msgs : list jsstring) (m : Machine) : Machine :=
  fold_left (fun m' msg => reported msg m') msgs m.

(** The accepted files of a batch join the pending list, in selection
    order, and the pending count grows by their number. *)
Definition appends_accepted (files : list File.t) (m : Machine) : Prop :=
  let m' := snd (handleImageSelect files m) in
  imageFiles (state m')
    = imageFiles (state m) ++ filter accepted_within_size files
  /\ List.length (imageFiles (state m'))
    = List.length (imageFiles (state m))
      + List.length (filter accepted_within_size files).

(** The save calls and the upload calls of a trace. *)
Definition saved_payloads (tr : list event) : list Payload :=
  flat_map (fun e => match e with
                     | UpdateTurf _ p => [p]
                     | CreateTurf p => [p]
                     | _ => []
                     end) tr.

Definition upload_calls (tr : list event) : list (list File.t) :=
  flat_map (fun e => match e with ApiPost _ batch => [batch] | _ => [] end) tr.

(** The cause a failed upload reports: the [error] field of the response
    body when there is one, the message of the failure otherwise. *)
Definition reported_cause (err : Error) : jsstring :=
  opt_or_else (response_data_error err) (message err).

(** The host written into [getImageUrl]. *)
Definition configuredHost : jsstring := lit "http://localhost:8080".



(** Every file of another media type gets its warning, none of them is
    staged, and nothing is thrown. *)
Definition rejects_non_images (files : list File.t) (m : Machine) : Prop :=
  let r := handleImageSelect files m in
  fst r = Normal tt
  /\ (exists later,
        trace (snd r) = trace m ++ map SetError (type_warnings files) ++ later)
  /\ (forall file, In file files -> is_image file = false ->
        In (SetError (not_image_warning file)) (trace (snd r)))
  /\ (forall file, In file (imageFiles (state (snd r))) ->
        In file (imageFiles (state m)) \/ is_image file = true).

(** No accepted file of the batch exceeds 10 MiB. *)
Definition within_limit (files : list File.t) : Prop :=
  forall file, In file files -> is_image file = true ->
               (File.size file <= 10485760)%N.

(** The message of the error that [uploadImages] throws. *)
Definition upload_failed_message (err : Error) : jsstring :=
  lit "Failed to upload images: " ++ reported_cause err.

Definition upload_url : jsstring := lit "/files/upload-multiple".

Arguments lit : simpl never.
Arguments is_image : simpl never.
Arguments oversized : simpl never.
Arguments not_image_warning : simpl never.

(* ================================================================== *)
(** ** Further vocabulary: staging, previews, time and price text *)
(* ================================================================== *)

(** [arr.filter((x, i) => keep(i))]: the elements whose index passes,
    indices counted from [start]. *)
Fixpoint filter_index {A} (keep : nat -> bool) (start : nat) (l : list A)
  : list A :=
  match l with
  | [] => []
  | x :: l' =>
      if keep start then x :: filter_index keep (S start) l'
      else filter_index keep (S start) l'
  end.

(** Every pending file is an image of at most 10 MiB. *)
Definition staged_ok (s : State) : Prop :=
  Forall (fun file => is_image file = true /\ (File.size file <= 10485760)%N)
         (imageFiles s).

(** The readers started for a batch finish in the order [order]. *)
Definition complete_reads (order : list File.t) : M unit :=
  forEach onloadend order.

(** The value of a time input: two digits, a colon, two digits. *)
Definition two_digits (n : N) : jsstring := [48 + n / 10; 48 + n mod 10]%N.
Definition hhmm (h m : N) : jsstring := two_digits h ++ [58%N] ++ two_digits m.

(** Text made of decimal digits only. *)
Definition all_digits (s : jsstring) : bool := forallb is_digit s.

(** The message [handleSubmit] falls back to for an error without one. *)
Definition save_fallback : jsstring :=
  lit "Failed to save turf. Please try again.".

(** A URL with a scheme, as [getImageUrl] recognises one. *)
Definition absolute (url : jsstring) : Prop :=
  startsWith url (lit "http://") = true \/ startsWith url (lit "https://") = true.

(** One submission: [handleSubmit] of the render with state [c], run on
    that state. *)
Definition submit (props : Props) (io : Collaborators) (c : State)
  : completion unit * Machine :=
  run (handleSubmit props io c) c.

(** The upload does not fail: there is nothing to upload, or the request
    resolves.  [urls] are the references it yields. *)
Definition upload_yields (io : Collaborators) (c : State)
    (urls : list jsstring) : Prop :=
  (imageFiles c = [] /\ urls = [])
  \/ (imageFiles c <> []
      /\ exists response,
           api_post io upload_url (imageFiles c) = Resolved response
           /\ urls = map fileUrl (files response)).

(** The save call [handleSubmit] makes for the image list [urls]. *)
Definition save_event (props : Props) (c : State) (owner : N)
    (urls : list jsstring) : event :=
  match turf props with
  | Some t => UpdateTurf (Turf.id t) (mkPayload (formData c) None urls)
  | None => CreateTurf (mkPayload (formData c) (Some owner) urls)
  end.

(** How that save call settles. *)
Definition save_settles (props : Props) (io : Collaborators) (c : State)
    (owner : N) (urls : list jsstring) : settled unit :=
  match turf props with
  | Some t => updateTurf io (Turf.id t) (mkPayload (formData c) None urls)
  | None => createTurf io (mkPayload (formData c) (Some owner) urls)
  end.

(** The message shown after a save that resolved. *)
Definition success_alert (props : Props) : jsstring :=
  match turf props with
  | Some _ => lit "Turf updated successfully!"
  | None => lit "Turf created successfully!"
  end.

(** The upload request of a submission, when it has pending files. *)
Definition upload_events (c : State) : list event :=
  match imageFiles c with
  | [] => []
  | _ :: _ => [ApiPost upload_url (imageFiles c)]
  end.

(** The requests of a trace, by kind. *)
Inductive request : Type := Upload | Save.

Definition requests (tr : list event) : list request :=
  flat_map (fun e => match e with
                     | ApiPost _ _ => [Upload]
                     | UpdateTurf _ _ => [Save]
                     | CreateTurf _ => [Save]
                     | _ => []
                     end) tr.

(** A stored field as the form shows it when it has no default. *)
Definition stored (x : option jsstring) : jsstring :=
  match x with Some v => v | None => [] end.

(** The image references of a stored turf. *)
Definition stored_images (t : Turf.t) : list jsstring :=
  match Turf.imageUrls t with Some urls => urls | None => [] end.

(** The state of the form once the effect for [turf] has run on a fresh
    component. *)
Definition opened (props : Props) : State :=
  state (snd (run (useEffect_turf props) initialState)).

(* ================================================================== *)
(** ** Sample inputs *)
(* ================================================================== *)

(** A form for the examples: every rule holds. *)
Definition sample_form : FormData :=
  mkFormData (lit "Green Park Arena") (lit "9876543210") (lit "Chennai")
             (lit "FOOTBALL") (lit "750") (lit "Five-a-side turf")
             (lit "06:00") (lit "22:00").

Definition with_form (f : FormData) : State := with_formData f initialState.

Definition sample_state : State := with_form sample_form.

(** A form whose price is not a number: every other rule holds. *)
Definition word_price_state : State :=
  with_form (mkFormData (lit "Green Park Arena") (lit "9876543210")
                        (lit "Chennai") (lit "FOOTBALL") (lit "abc") []
                        (lit "06:00") (lit "22:00")).

Definition free_price_state : State :=
  with_form (mkFormData (lit "Marina Courts") (lit "044-2345-6789")
                        (lit "Marina Beach Road") (lit "TENNIS") (lit "free") []
                        (lit "07:30") (lit "21:00")).

Definition negative_price_state : State :=
  with_form (mkFormData (lit "Green Park Arena") (lit "9876543210")
                        (lit "Chennai") (lit "FOOTBALL") (lit "-5") []
                        (lit "06:00") (lit "22:00")).

Definition letters_phone_state : State :=
  with_form (mkFormData (lit "Green Park Arena") (lit "call-me")
                        (lit "Chennai") (lit "FOOTBALL") (lit "750") []
                        (lit "06:00") (lit "22:00")).

Definition png (nm : string) (bytes : N) : File.t :=
  File.mk (lit nm) (lit "image/png") bytes None.

Definition pdf (nm : string) (bytes : N) : File.t :=
  File.mk (lit nm) (lit "application/pdf") bytes None.

Definition machine0 : Machine := mkMachine initialState [].

Definition mixed_batch : list File.t :=
  [png "pitch.png" 2048; pdf "lease.pdf" 512; png "aerial.png" 10485761;
   png "drone.png" 20971520].

Definition batch_with_pdf : list File.t :=
  [png "pitch.png" 2048; pdf "lease.pdf" 512; png "goal.png" 4096].

Definition refusing_upload : Collaborators :=
  mkCollaborators
    (fun _ _ => Rejected (mkError (lit "Request failed with status code 413")
                                  (Some (lit "File too large"))))
    (fun _ _ => Resolved tt)
    (fun _ => Resolved tt).

Definition create_props : Props := mkProps None (Some (mkUser 7)) None.

Definition state_with_pending : State :=
  with_imageFiles [png "pitch.png" 2048]
                  (with_existingImages [lit "/api/files/old.png"] sample_state).

Definition accepting_upload : Collaborators :=
  mkCollaborators
    (fun _ batch =>
       Resolved (mkUploadResponse
                   (map (fun file => mkUploadedFile (lit "/api/files/" ++ File.name file))
                        batch)))
    (fun _ _ => Resolved tt)
    (fun _ => Resolved tt).

Definition zero_price_state : State :=
  with_form (mkFormData (lit "Green Park Arena") (lit "9876543210")
                        (lit "Chennai") (lit "FOOTBALL") (lit "000") []
                        (lit "06:00") (lit "22:00")).

Definition jpg (nm : string) (bytes : N) (url : string) : File.t :=
  File.mk (lit nm) (lit "image/jpeg") bytes (Some (lit url)).

Definition refusing_save : Collaborators :=
  mkCollaborators
    (api_post accepting_upload)
    (fun _ _ => Rejected (mkError (lit "Network Error") None))
    (fun _ => Rejected (mkError (lit "Network Error") None)).

Definition edit_props_signed_out : Props :=
  mkProps (Some (Turf.mk 3 (Some (lit "Green Park Arena")) None None None None
                         None None None None))
          None None.

Definition stored_turf : Turf.t :=
  Turf.mk 3 (Some (lit "Green Park Arena")) (Some (lit "9876543210"))
          (Some (lit "Chennai")) (Some (lit "CRICKET")) (Some (lit "750"))
          None (Some (lit "05:30")) (Some (lit "23:00"))
          (Some [lit "/api/files/a.png"; lit "b.png"]).

Definition edit_props : Props := mkProps (Some stored_turf) (Some (mkUser 7)) None.

(* ================================================================== *)
(** ** Strings and numbers *)
(* ================================================================== *)

Example parseFloat_12_5 : parseFloat (lit "12.50") = Decimal false 1250 (-2).
Proof. reflexivity. Qed.

Example parseFloat_tail : parseFloat (lit "  -3e2px") = Decimal true 3 2.
Proof. reflexivity. Qed.

Example parseFloat_abc : parseFloat (lit "abc") = NaN.
Proof. reflexivity. Qed.

Example parseFloat_dot : parseFloat (lit ".") = NaN.
Proof. reflexivity. Qed.

Example parseFloat_1e : parseFloat (lit "1e+") = Decimal false 1 0.
Proof. reflexivity. Qed.

Example trim_sample : trim (lit "  a b ") = lit "a b".
Proof. reflexivity. Qed.

Example time_order : str_lt (lit "06:00") (lit "22:00") = true.
Proof. reflexivity. Qed.

Example tiny_price_rounds_to_zero :
  le_zero (parseFloat (lit "1e-400")) = true.
Proof. vm_compute. reflexivity. Qed.

Lemma falsy_false_iff (s : jsstring) : falsy s = false <-> s <> [].
Proof.
  destruct s; simpl; split; intro H; try congruence; try discriminate.
Qed.

Lemma falsy_true_iff (s : jsstring) : falsy s = true <-> s = [].
Proof.
  destruct s; simpl; split; intro H; try congruence; try discriminate.
Qed.

Lemma trimStart_nil_iff (s : jsstring) : trimStart s = [] <-> blank s.
Proof.
  unfold blank. induction s as [|ch s IH]; simpl.
  - split; intros; [constructor | reflexivity].
  - destruct (is_white_space ch) eqn:W.
    + rewrite IH. split; intro H.
      * constructor; assumption.
      * inversion H; assumption.
    + split; intro H; [discriminate |].
      inversion H; congruence.
Qed.

Lemma blank_rev (s : jsstring) : blank (rev s) <-> blank s.
Proof.
  unfold blank. rewrite !Forall_forall. split; intros H ch Hin; apply H.
  - apply -> in_rev; assumption.
  - apply in_rev; assumption.
Qed.

Lemma trimStart_head (s : jsstring) :
  match trimStart s with
  | [] => True
  | ch :: _ => is_white_space ch = false
  end.
Proof.
  induction s as [|ch s IH]; simpl; [exact I |].
  destruct (is_white_space ch) eqn:W; [exact IH | exact W].
Qed.

(** Trimming leaves nothing exactly for the blank strings. *)
Lemma trim_nil_iff (s : jsstring) : trim s = [] <-> blank s.
Proof.
  unfold trim, trimEnd. split; intro H.
  - assert (E : trimStart (rev (trimStart s)) = []).
    { destruct (trimStart (rev (trimStart s))) as [|ch r]; [reflexivity |].
      apply (f_equal (@List.length char16)) in H.
      rewrite length_rev in H. discriminate. }
    apply trimStart_nil_iff in E. apply -> blank_rev in E.
    apply trimStart_nil_iff.
    pose proof (trimStart_head s) as Hd.
    destruct (trimStart s) as [|ch r]; [reflexivity |].
    unfold blank in E. inversion E; congruence.
  - apply trimStart_nil_iff in H. rewrite H. reflexivity.
Qed.

Lemma str_lt_spec (a b : jsstring) : str_lt a b = true <-> lex_lt a b.
Proof.
  revert b. induction a as [|x a IH]; intros [|y b]; simpl.
  - split; intro H; [discriminate | inversion H].
  - split; intro H; [constructor | reflexivity].
  - split; intro H; [discriminate | inversion H].
  - destruct (N.ltb_spec x y) as [L|L].
    + split; intro H; [constructor; assumption | reflexivity].
    + destruct (N.eqb_spec x y) as [E|E].
      * subst y. rewrite IH. split; intro H.
        -- constructor; assumption.
        -- inversion H; subst; [lia | assumption].
      * split; intro H; [discriminate |].
        inversion H; subst; [lia | congruence].
Qed.

Lemma str_ge_false_iff (a b : jsstring) : str_ge a b = false <-> lex_lt a b.
Proof.
  unfold str_ge. rewrite negb_false_iff. apply str_lt_spec.
Qed.

Lemma str_length_ltb (s : jsstring) (n : nat) :
  (str_length s <? N.of_nat n)%N = true <-> List.length s < n.
Proof.
  unfold str_length. rewrite N.ltb_lt. lia.
Qed.

(** Off [NaN], [> 0] and [<= 0] are each other's negation. *)
Lemma gt_zero_negb_le_zero (x : number) :
  is_NaN x = false -> gt_zero x = negb (le_zero x).
Proof.
  destruct x as [|neg|neg m e]; simpl; intro H; try discriminate.
  - reflexivity.
  - rewrite negb_orb. reflexivity.
Qed.

Lemma le_zero_not_NaN (x : number) : le_zero x = true -> is_NaN x = false.
Proof. destruct x; simpl; intro H; [discriminate | reflexivity | reflexivity]. Qed.

Lemma gt_zero_not_le_zero (x : number) : gt_zero x = true -> le_zero x = false.
Proof.
  destruct x as [|neg|neg m e]; simpl; intro H; try reflexivity.
  - destruct neg; [discriminate | reflexivity].
  - apply andb_true_iff in H. destruct H as [H1 H2].
    destruct neg; [discriminate |]. simpl.
    apply negb_true_iff. assumption.
Qed.

Lemma startsWith_app (p s : jsstring) : startsWith (p ++ s) p = true.
Proof.
  induction p as [|a p IH]; simpl; [reflexivity |].
  rewrite N.eqb_refl. exact IH.
Qed.

Lemma startsWith_spec (s p : jsstring) :
  startsWith s p = true <-> exists rest, s = p ++ rest.
Proof.
  revert s. induction p as [|a p IH]; intros s; simpl.
  - split; [intros _; exists s; reflexivity | reflexivity].
  - destruct s as [|b s].
    + split; [discriminate | intros [rest H]; discriminate].
    + rewrite andb_true_iff, N.eqb_eq, IH. split.
      * intros [E [rest H]]. exists rest. subst. reflexivity.
      * intros [rest H]. inversion H. split; [reflexivity | exists rest; reflexivity].
Qed.

(** Every part of a joined string occurs in it. *)
Lemma join_occurs (sep x : jsstring) (parts : list jsstring) :
  In x parts -> occurs_in x (join sep parts).
Proof.
  unfold occurs_in.
  induction parts as [|p rest IH]; intros Hin; [destruct Hin |].
  destruct Hin as [E | Hin].
  - subst p. destruct rest as [|q rest'].
    + exists [], []. simpl. rewrite app_nil_r. reflexivity.
    + exists [], (sep ++ join sep (q :: rest')). reflexivity.
  - destruct rest as [|q rest']; [destruct Hin |].
    destruct (IH Hin) as [before [after E]].
    exists (p ++ sep ++ before), after.
    change (join sep (p :: q :: rest')) with (p ++ sep ++ join sep (q :: rest')).
    rewrite E. rewrite <- !app_assoc. reflexivity.
Qed.

(* ================================================================== *)
(** ** Validation *)
(* ================================================================== *)

(** [validateForm] reports the first violated check and nothing else. *)
Lemma validateForm_run (c : State) (m : Machine) :
  validateForm c m =
  match first_violation (formData c) with
  | Some e => (Normal false, reported (error_message e) m)
  | None => (Normal true, m)
  end.
Proof.
  unfold validateForm, first_violation.
  destruct (falsy (trim (name (formData c)))); [reflexivity |].
  destruct (str_length (phone (formData c)) <? 10)%N; [reflexivity |].
  destruct (falsy (trim (location (formData c)))); [reflexivity |].
  destruct (falsy (pricePerSlot (formData c))
            || le_zero (parseFloat (pricePerSlot (formData c))));
    [reflexivity |].
  destruct (str_ge (operatingStartTime (formData c))
                   (operatingEndTime (formData c))); reflexivity.
Qed.

Lemma error_message_inj (e1 e2 : ValidationError) :
  error_message e1 = error_message e2 -> e1 = e2.
Proof.
  destruct e1, e2; intro H; try reflexivity; vm_compute in H; discriminate.
Qed.

Lemma fails_with_iff (c : State) (e : ValidationError) :
  fails_with c e <-> first_violation (formData c) = Some e.
Proof.
  unfold fails_with. split.
  - intro H. specialize (H (mkMachine c [])).
    rewrite validateForm_run in H.
    destruct (first_violation (formData c)) as [e'|]; [| discriminate].
    f_equal. apply error_message_inj.
    unfold reported in H. simpl in H. congruence.
  - intros H m. rewrite validateForm_run, H. reflexivity.
Qed.

Lemma succeeds_iff (c : State) :
  succeeds c <-> first_violation (formData c) = None.
Proof.
  unfold succeeds. split.
  - intro H. specialize (H (mkMachine c [])).
    rewrite validateForm_run in H.
    destruct (first_violation (formData c)); [discriminate | reflexivity].
  - intros H m. rewrite validateForm_run, H. reflexivity.
Qed.

(** The checks of the code against the rules of the specification. *)
Lemma name_check (f : FormData) :
  falsy (trim (name f)) = false <-> name_rule f.
Proof. apply falsy_false_iff. Qed.

Lemma phone_check (f : FormData) :
  (str_length (phone f) <? 10)%N = false <-> phone_rule f.
Proof.
  unfold phone_rule, str_length. rewrite N.ltb_ge. lia.
Qed.

Lemma location_check (f : FormData) :
  falsy (trim (location f)) = false <-> location_rule f.
Proof. apply falsy_false_iff. Qed.

Lemma time_check (f : FormData) :
  str_ge (operatingStartTime f) (operatingEndTime f) = false <-> time_rule f.
Proof. apply str_ge_false_iff. Qed.

(** The price check rejects whatever the price rule rejects, except text
    that is not a number at all. *)
Lemma price_check (f : FormData) :
  falsy (pricePerSlot f) || le_zero (parseFloat (pricePerSlot f)) = false
  <-> pricePerSlot f <> []
      /\ (gt_zero (parseFloat (pricePerSlot f)) = true
          \/ is_NaN (parseFloat (pricePerSlot f)) = true).
Proof.
  rewrite orb_false_iff, falsy_false_iff.
  destruct (parseFloat (pricePerSlot f)) as [|neg|neg m e]; simpl.
  - intuition.
  - destruct neg; simpl; intuition discriminate.
  - destruct neg, (rounds_to_zero m e); simpl; intuition discriminate.
Qed.

Lemma price_check_numeric (f : FormData) :
  price_numeric f ->
  (falsy (pricePerSlot f) || le_zero (parseFloat (pricePerSlot f)) = false
   <-> price_rule f).
Proof.
  intros Hnum. rewrite price_check. unfold price_rule.
  destruct Hnum as [E | N].
  - rewrite E. split; intros [H _]; congruence.
  - rewrite N. split; intros [H1 H2]; split; try assumption.
    + destruct H2; [assumption | discriminate].
    + left; assumption.
Qed.

(** What [validateForm] does at the price check, for any price text: once
    the first three rules pass, [InvalidPrice] is the outcome exactly for
    an empty price and for one that [parseFloat] reads as a number [<= 0]. *)
Lemma price_rejected_iff_check (c : State) :
  let f := formData c in
  name_rule f -> phone_rule f -> location_rule f ->
  (fails_with c InvalidPrice
   <-> pricePerSlot f = [] \/ le_zero (parseFloat (pricePerSlot f)) = true).
Proof.
  intros f Hn Hp Hl. rewrite fails_with_iff. unfold first_violation.
  fold f.
  apply name_check in Hn. apply phone_check in Hp. apply location_check in Hl.
  rewrite Hn, Hp, Hl.
  rewrite <- falsy_true_iff, <- orb_true_iff.
  destruct (falsy (pricePerSlot f) || le_zero (parseFloat (pricePerSlot f))).
  - split; reflexivity.
  - split; intro H; [| discriminate].
    destruct (str_ge (operatingStartTime f) (operatingEndTime f)); discriminate.
Qed.

Ltac rule_by_computation :=
  match goal with
  | |- name_rule _ => apply name_check; vm_compute; reflexivity
  | |- phone_rule _ => apply phone_check; vm_compute; reflexivity
  | |- location_rule _ => apply location_check; vm_compute; reflexivity
  | |- time_rule _ => apply time_check; vm_compute; reflexivity
  | |- price_rule _ => split; [vm_compute; discriminate | vm_compute; reflexivity]
  | |- price_numeric _ => right; vm_compute; reflexivity
  end.

(** C3, as stated, fails: with the price text [abc] the name, phone and
    location rules hold and the price rule does not, yet [validateForm]
    reports no [InvalidPrice]; it succeeds. *)
Lemma first_failure_reported_word_price :
  ~ first_failure_reported word_price_state.
Proof.
  intros (_ & _ & _ & Hprice & _).
  assert (F : fails_with word_price_state InvalidPrice).
  { apply Hprice; try rule_by_computation.
    intros [_ Hgt]. vm_compute in Hgt. discriminate. }
  apply fails_with_iff in F. vm_compute in F. discriminate.
Qed.

(** C3 (amended): for every form whose price is empty or reads as a
    number, [validateForm] checks the five rules in order (name not blank
    after trimming, phone of at least 10 characters, location not blank
    after trimming, price present and greater than 0, start time
    lexicographically before end time), reports the error of the first
    rule that fails and no other, and succeeds when all five hold. *)
Theorem validate_reports_first_failure (c : State) :
  price_numeric (formData c) -> first_failure_reported c.
Proof.
  intros Hnum. unfold first_failure_reported.
  set (f := formData c).
  pose proof (name_check f) as Cn.
  pose proof (phone_check f) as Cp.
  pose proof (location_check f) as Cl.
  pose proof (price_check_numeric Hnum) as Cr. fold f in Cr.
  pose proof (time_check f) as Ct.
  repeat split.
  - intros Hn. apply fails_with_iff. unfold first_violation. fold f.
    destruct (falsy (trim (name f))); [reflexivity |].
    exfalso. apply Hn, Cn. reflexivity.
  - intros Hn Hp. apply fails_with_iff. unfold first_violation. fold f.
    apply Cn in Hn. rewrite Hn.
    destruct (str_length (phone f) <? 10)%N; [reflexivity |].
    exfalso. apply Hp, Cp. reflexivity.
  - intros Hn Hp Hl. apply fails_with_iff. unfold first_violation. fold f.
    apply Cn in Hn. apply Cp in Hp. rewrite Hn, Hp.
    destruct (falsy (trim (location f))); [reflexivity |].
    exfalso. apply Hl, Cl. reflexivity.
  - intros Hn Hp Hl Hr. apply fails_with_iff. unfold first_violation. fold f.
    apply Cn in Hn. apply Cp in Hp. apply Cl in Hl. rewrite Hn, Hp, Hl.
    destruct (falsy (pricePerSlot f) || le_zero (parseFloat (pricePerSlot f)));
      [reflexivity |].
    exfalso. apply Hr, Cr. reflexivity.
  - intros Hn Hp Hl Hr Ht. apply fails_with_iff. unfold first_violation. fold f.
    apply Cn in Hn. apply Cp in Hp. apply Cl in Hl. apply Cr in Hr.
    rewrite Hn, Hp, Hl, Hr.
    destruct (str_ge (operatingStartTime f) (operatingEndTime f));
      [reflexivity |].
    exfalso. apply Ht, Ct. reflexivity.
  - intros Hn Hp Hl Hr Ht. apply succeeds_iff. unfold first_violation. fold f.
    apply Cn in Hn. apply Cp in Hp. apply Cl in Hl. apply Cr in Hr.
    apply Ct in Ht. rewrite Hn, Hp, Hl, Hr, Ht. reflexivity.
Qed.

Lemma validate_reports_first_failure_witness :
  price_numeric (formData sample_state) /\ succeeds sample_state.
Proof.
  assert (Hnum : price_numeric (formData sample_state)) by rule_by_computation.
  split; [exact Hnum |].
  apply (validate_reports_first_failure sample_state Hnum); rule_by_computation.
Defined.

(** C4, as stated, fails: the price text [free] is not empty and does not
    read as any number, the three rules before the price rule hold, and
    [validateForm] does not report [InvalidPrice]. *)
Lemma price_rejected_iff_rule_fails_free_price :
  ~ price_rejected_iff_rule_fails free_price_state.
Proof.
  intros H. unfold price_rejected_iff_rule_fails in H.
  assert (F : fails_with free_price_state InvalidPrice).
  { apply H; try rule_by_computation.
    intros [_ Hgt]. vm_compute in Hgt. discriminate. }
  apply fails_with_iff in F. vm_compute in F. discriminate.
Qed.

(** C4 (amended): for every form whose first three rules pass and whose
    price is empty or reads as a number, [validateForm] fails with
    [InvalidPrice] exactly when the price is absent or does not parse to
    a number strictly greater than 0. *)
Theorem invalid_price_iff (c : State) :
  price_numeric (formData c) -> price_rejected_iff_rule_fails c.
Proof.
  intros Hnum Hn Hp Hl.
  rewrite (price_rejected_iff_check c Hn Hp Hl).
  rewrite <- (price_check_numeric Hnum).
  rewrite <- falsy_true_iff, <- orb_true_iff.
  destruct (falsy (pricePerSlot (formData c))
            || le_zero (parseFloat (pricePerSlot (formData c))));
    split; intro H; try reflexivity; try discriminate; congruence.
Qed.

Lemma invalid_price_iff_witness :
  price_numeric (formData negative_price_state)
  /\ fails_with negative_price_state InvalidPrice.
Proof.
  assert (Hnum : price_numeric (formData negative_price_state))
    by rule_by_computation.
  split; [exact Hnum |].
  apply (invalid_price_iff negative_price_state Hnum); try rule_by_computation.
  intros [_ Hgt]. vm_compute in Hgt. discriminate.
Defined.

(** C8: for every form whose name rule passes, [validateForm] fails with
    [PhoneTooShort] exactly when the phone string has fewer than 10 code
    units, whatever those are (digits or not). *)
Theorem phone_too_short_iff (c : State) :
  name_rule (formData c) ->
  (fails_with c PhoneTooShort <-> List.length (phone (formData c)) < 10).
Proof.
  intros Hn. rewrite fails_with_iff. unfold first_violation.
  apply name_check in Hn. rewrite Hn.
  change 10%N with (N.of_nat 10).
  destruct (str_length (phone (formData c)) <? N.of_nat 10)%N eqn:E.
  - apply str_length_ltb in E. split; [intros _; exact E | reflexivity].
  - split.
    + intro H.
      destruct (falsy (trim (location (formData c)))); [discriminate |].
      destruct (falsy (pricePerSlot (formData c))
                || le_zero (parseFloat (pricePerSlot (formData c))));
        [discriminate |].
      destruct (str_ge (operatingStartTime (formData c))
                       (operatingEndTime (formData c))); discriminate.
    + intro H. apply str_length_ltb in H. congruence.
Qed.

Lemma phone_too_short_iff_witness :
  name_rule (formData letters_phone_state)
  /\ fails_with letters_phone_state PhoneTooShort.
Proof.
  assert (Hn : name_rule (formData letters_phone_state)) by rule_by_computation.
  split; [exact Hn |].
  apply (phone_too_short_iff letters_phone_state Hn).
  vm_compute. lia.
Defined.

Example letters_count_as_phone :
  succeeds (with_form (mkFormData (lit "Green Park Arena") (lit "not-a-phone")
                                  (lit "Chennai") (lit "FOOTBALL") (lit "750") []
                                  (lit "06:00") (lit "22:00"))).
Proof. apply succeeds_iff. vm_compute. reflexivity. Qed.

(* ================================================================== *)
(** ** Image staging *)
(* ================================================================== *)

Lemma filter_valid_cons (file : File.t) (rest : list File.t) :
  filter_valid (file :: rest)
  = ((if negb (is_image file)
      then setError (not_image_warning file)
      else ret tt) ;;
     valid <- filter_valid rest ;;
     ret (if is_image file then file :: valid else valid)).
Proof. reflexivity. Qed.

Lemma setError_run (msg : jsstring) (m : Machine) :
  setError msg m = (Normal tt, reported msg m).
Proof. reflexivity. Qed.

Lemma reported_all_imageFiles (msgs : list jsstring) (m : Machine) :
  imageFiles (state (reported_all msgs m)) = imageFiles (state m).
Proof.
  revert m. induction msgs as [|msg msgs IH]; intro m; simpl; [reflexivity |].
  unfold reported_all in IH. rewrite IH. reflexivity.
Qed.

Lemma reported_all_trace (msgs : list jsstring) (m : Machine) :
  trace (reported_all msgs m) = trace m ++ map SetError msgs.
Proof.
  revert m. induction msgs as [|msg msgs IH]; intro m; simpl.
  - rewrite app_nil_r. reflexivity.
  - unfold reported_all in IH. rewrite IH. simpl.
    rewrite <- app_assoc. reflexivity.
Qed.

Lemma filter_valid_run (files : list File.t) (m : Machine) :
  filter_valid files m
  = (Normal (filter is_image files), reported_all (type_warnings files) m).
Proof.
  revert m. induction files as [|file rest IH]; intro m; [reflexivity |].
  rewrite filter_valid_cons. unfold type_warnings. simpl.
  destruct (is_image file) eqn:I; simpl.
  - unfold bind, ret. rewrite IH. reflexivity.
  - unfold bind at 1. rewrite setError_run.
    unfold bind, ret. rewrite IH. reflexivity.
Qed.

Lemma forEach_read (l : list File.t) (m : Machine) :
  forEach (fun file => emit (ReadAsDataURL file)) l m
  = (Normal tt, mkMachine (state m) (trace m ++ map ReadAsDataURL l)).
Proof.
  revert m. induction l as [|x l IH]; intro m; simpl.
  - rewrite app_nil_r. destruct m; reflexivity.
  - unfold bind, emit. rewrite IH. simpl. rewrite <- app_assoc. reflexivity.
Qed.

(** [handleImageSelect] in one step: the type warnings first, then either
    the aggregate warning alone or the staging of the whole filtered
    batch. *)
Lemma handleImageSelect_run (files : list File.t) (m : Machine) :
  handleImageSelect files m =
  let m1 := reported_all (type_warnings files) m in
  match oversized_accepted files with
  | [] =>
      (Normal tt,
       mkMachine (with_imageFiles (imageFiles (state m1) ++ filter is_image files)
                                  (state m1))
                 ((trace m1 ++ map ReadAsDataURL (filter is_image files))
                  ++ [ClearInput]))
  | _ :: _ => (Normal tt, reported (oversize_warning files) m1)
  end.
Proof.
  unfold handleImageSelect, bind at 1. rewrite filter_valid_run.
  unfold oversize_warning, oversized_accepted.
  destruct (filter oversized (filter is_image files)) as [|big bigs] eqn:E.
  - simpl. unfold bind, setImageFiles, modify. simpl.
    rewrite forEach_read. reflexivity.
  - simpl. rewrite setError_run. reflexivity.
Qed.

Lemma oversized_iff (file : File.t) :
  oversized file = true <-> (10485760 < File.size file)%N.
Proof. unfold oversized. rewrite N.ltb_lt. reflexivity. Qed.

Lemma oversized_accepted_In (files : list File.t) (file : File.t) :
  In file (oversized_accepted files)
  <-> In file files /\ is_image file = true /\ (10485760 < File.size file)%N.
Proof.
  unfold oversized_accepted. rewrite !filter_In, oversized_iff. tauto.
Qed.

Lemma within_limit_no_oversized (files : list File.t) :
  within_limit files -> oversized_accepted files = [].
Proof.
  intros H. destruct (oversized_accepted files) as [|big bigs] eqn:E;
    [reflexivity |].
  assert (Hin : In big (oversized_accepted files)) by (rewrite E; left; reflexivity).
  apply oversized_accepted_In in Hin. destruct Hin as (Hin & Himg & Hbig).
  specialize (H big Hin Himg). lia.
Qed.

Lemma within_limit_accepted (files : list File.t) :
  within_limit files -> filter accepted_within_size files = filter is_image files.
Proof.
  intros H. apply filter_ext_in. intros file Hin.
  unfold accepted_within_size.
  destruct (is_image file) eqn:I; [| reflexivity].
  specialize (H file Hin I). simpl.
  destruct (oversized file) eqn:O; [| reflexivity].
  apply oversized_iff in O. lia.
Qed.

Lemma rejects_non_images_always (files : list File.t) (m : Machine) :
  rejects_non_images files m.
Proof.
  unfold rejects_non_images. rewrite handleImageSelect_run. cbv zeta.
  assert (W : forall file, In file files -> is_image file = false ->
                In (SetError (not_image_warning file))
                   (map SetError (type_warnings files))).
  { intros file Hin I. apply in_map. unfold type_warnings.
    apply in_map. apply filter_In. rewrite I. split; [assumption | reflexivity]. }
  destruct (oversized_accepted files) as [|big bigs]; simpl;
    rewrite ?reported_all_trace, ?reported_all_imageFiles.
  - repeat split.
    + exists (map ReadAsDataURL (filter is_image files) ++ [ClearInput]).
      rewrite <- !app_assoc. reflexivity.
    + intros file Hin I. rewrite <- !app_assoc.
      apply in_or_app; right. apply in_or_app; left. apply W; assumption.
    + intros file Hin. apply in_app_or in Hin. destruct Hin as [Hin | Hin].
      * left; assumption.
      * right. apply filter_In in Hin. tauto.
  - repeat split.
    + exists [SetError (oversize_warning files)].
      rewrite <- app_assoc. reflexivity.
    + intros file Hin I.
      apply in_or_app; left. apply in_or_app; right. apply W; assumption.
    + intros file Hin. left; assumption.
Qed.

(** C5: for every batch in which a file that passed the type filter
    exceeds 10 MiB, nothing is thrown, the pending list is left as it was,
    and after the per-file type warnings exactly one aggregate warning is
    reported, which stays in the [error] state and contains the name of
    every oversized accepted file of the batch. *)
Theorem oversized_batch_rejected (files : list File.t) (m : Machine)
    (big : File.t) :
  In big files -> is_image big = true -> (10485760 < File.size big)%N ->
  let r := handleImageSelect files m in
  fst r = Normal tt
  /\ imageFiles (state (snd r)) = imageFiles (state m)
  /\ error (state (snd r)) = oversize_warning files
  /\ trace (snd r)
     = trace m ++ map SetError (type_warnings files)
               ++ [SetError (oversize_warning files)]
  /\ (forall file, In file files -> is_image file = true ->
        (10485760 < File.size file)%N ->
        occurs_in (File.name file) (oversize_warning files)).
Proof.
  intros Hin Himg Hbig r. subst r. rewrite handleImageSelect_run. cbv zeta.
  assert (Hov : In big (oversized_accepted files))
    by (apply oversized_accepted_In; tauto).
  destruct (oversized_accepted files) as [|b bs] eqn:E; [destruct Hov |].
  simpl. rewrite reported_all_imageFiles, reported_all_trace.
  repeat split.
  - rewrite <- app_assoc. reflexivity.
  - intros file Fin Fimg Fbig.
    unfold oversize_warning, occurs_in.
    assert (Hn : In (File.name file) (map File.name (oversized_accepted files))).
    { apply in_map. apply oversized_accepted_In. tauto. }
    destruct (join_occurs (lit ", ") _ _ Hn) as [before [after Eq]].
    exists (lit "Some files exceed 10MB limit: " ++ before), after.
    rewrite Eq. rewrite <- app_assoc. reflexivity.
Qed.

Lemma oversized_batch_rejected_witness :
  let r := handleImageSelect mixed_batch machine0 in
  imageFiles (state (snd r)) = []
  /\ error (state (snd r))
     = lit "Some files exceed 10MB limit: aerial.png, drone.png".
Proof.
  assert (Hin : In (png "aerial.png" 10485761) mixed_batch)
    by (right; right; left; reflexivity).
  assert (Himg : is_image (png "aerial.png" 10485761) = true) by reflexivity.
  assert (Hbig : (10485760 < File.size (png "aerial.png" 10485761))%N)
    by (simpl; lia).
  destruct (oversized_batch_rejected mixed_batch machine0 _ Hin Himg Hbig)
    as (_ & Hfiles & Herr & _).
  split; [exact Hfiles | exact Herr].
Defined.

(** C6, as stated, fails: in a batch with one oversized image, the image
    that is within the limit is accepted by the type filter and yet not
    appended; the pending count does not grow. *)
Lemma small_image_beside_large_not_appended :
  ~ (rejects_non_images [png "drone.png" 20971520; png "pitch.png" 2048] machine0
     /\ appends_accepted [png "drone.png" 20971520; png "pitch.png" 2048] machine0).
Proof.
  intros [_ [H _]]. vm_compute in H. discriminate.
Qed.

(** C6 (amended): for every batch, each file whose declared media type is
    not an image type is rejected with a warning of its own, in selection
    order and without anything thrown; and when no accepted file of the
    batch exceeds 10 MiB, the accepted files are appended to the pending
    list in selection order, so the pending count grows by exactly their
    number. *)
Theorem select_filters_then_appends (files : list File.t) (m : Machine) :
  rejects_non_images files m
  /\ (within_limit files -> appends_accepted files m).
Proof.
  split; [apply rejects_non_images_always |].
  intros H. unfold appends_accepted. rewrite handleImageSelect_run. cbv zeta.
  rewrite (within_limit_no_oversized H), (within_limit_accepted H). simpl.
  rewrite reported_all_imageFiles. split; [reflexivity |].
  apply length_app.
Qed.

Lemma select_filters_then_appends_witness :
  within_limit batch_with_pdf
  /\ imageFiles (state (snd (handleImageSelect batch_with_pdf machine0)))
     = [png "pitch.png" 2048; png "goal.png" 4096].
Proof.
  assert (H : within_limit batch_with_pdf).
  { intros file Hin _.
    destruct Hin as [E | [E | [E | []]]]; subst file; simpl; lia. }
  split; [exact H |].
  destruct (select_filters_then_appends batch_with_pdf machine0) as [_ A].
  destruct (A H) as [E _]. exact E.
Defined.

(** C9: an image file of exactly 10 MiB (10485760 bytes) is not counted as
    oversized, the comparison being strict; selected on its own it is
    appended to the pending list with no warning, and selected in any
    batch whose accepted files are all within the limit it ends up in the
    pending list. *)
Theorem file_at_limit_accepted (file : File.t) :
  is_image file = true -> File.size file = 10485760%N ->
  oversized file = false
  /\ (forall m,
        handleImageSelect [file] m
        = (Normal tt,
           mkMachine (with_imageFiles (imageFiles (state m) ++ [file]) (state m))
                     (trace m ++ [ReadAsDataURL file; ClearInput])))
  /\ (forall files m, In file files -> within_limit files ->
        In file (imageFiles (state (snd (handleImageSelect files m))))).
Proof.
  intros Himg Hsize.
  assert (O : oversized file = false).
  { unfold oversized. rewrite Hsize. reflexivity. }
  split; [exact O |]. split.
  - intro m. rewrite handleImageSelect_run. cbv zeta.
    unfold oversized_accepted, type_warnings. simpl. rewrite Himg. simpl.
    rewrite O. simpl. rewrite <- app_assoc. reflexivity.
  - intros files m Hin Hlim. rewrite handleImageSelect_run. cbv zeta.
    rewrite (within_limit_no_oversized Hlim). simpl.
    apply in_or_app; right. apply filter_In. split; assumption.
Qed.

Lemma file_at_limit_accepted_witness :
  imageFiles (state (snd (handleImageSelect [png "full.png" 10485760] machine0)))
  = [png "full.png" 10485760].
Proof.
  assert (Himg : is_image (png "full.png" 10485760) = true) by reflexivity.
  assert (Hsize : File.size (png "full.png" 10485760) = 10485760%N) by reflexivity.
  destruct (file_at_limit_accepted (png "full.png" 10485760) Himg Hsize)
    as (_ & Hone & _).
  rewrite (Hone machine0). reflexivity.
Defined.

Example one_byte_over_is_rejected :
  imageFiles (state (snd (handleImageSelect [png "over.png" 10485761] machine0)))
  = [].
Proof. reflexivity. Qed.

(* ================================================================== *)
(** ** Submission *)
(* ================================================================== *)

Ltac step_handler :=
  cbv [run handleSubmit uploadImages user_userId bind ret throw
       try_catch_finally modify emit await setError setLoading
       setUploadingImages state trace].

Lemma uploadImages_run (io : Collaborators) (c : State) (m : Machine) :
  uploadImages io c m =
  match imageFiles c with
  | [] => (Normal [], m)
  | _ :: _ =>
      let m' :=
        mkMachine (with_uploadingImages false
                     (with_uploadingImages true (state m)))
                  (trace m ++ [ApiPost upload_url (imageFiles c)]) in
      match api_post io upload_url (imageFiles c) with
      | Resolved response => (Normal (map fileUrl (files response)), m')
      | Rejected err =>
          (Throw (mkError (upload_failed_message err) None), m')
      end
  end.
Proof.
  unfold uploadImages, upload_url.
  destruct (imageFiles c) as [|file rest]; [reflexivity |].
  cbv [bind ret throw try_catch_finally modify emit await
       setUploadingImages List.length Nat.eqb state trace].
  destruct (api_post io (lit "/files/upload-multiple") (file :: rest));
    reflexivity.
Qed.

Lemma upload_failed_message_truthy (err : Error) (fallback : jsstring) :
  or_else (upload_failed_message err) fallback = upload_failed_message err.
Proof. reflexivity. Qed.

(** C1: whenever a submission passes validation, has pending files, and
    the batch upload is rejected, [handleSubmit] ends without saving: the
    [error] state holds the upload failure with the cause the HTTP client
    reported, the busy flags are cleared, the only call made to the
    outside is the one upload request, and neither [createTurf] nor
    [updateTurf] is invoked. *)
Theorem upload_failure_aborts_submit (props : Props) (io : Collaborators)
    (c : State) (err : Error) :
  succeeds c ->
  imageFiles c <> [] ->
  api_post io upload_url (imageFiles c) = Rejected err ->
  let r := run (handleSubmit props io c) c in
  fst r = Normal tt
  /\ error (state (snd r)) = lit "Failed to upload images: " ++ reported_cause err
  /\ loading (state (snd r)) = false
  /\ uploadingImages (state (snd r)) = false
  /\ trace (snd r)
     = [SetError []; ApiPost upload_url (imageFiles c);
        SetError (lit "Failed to upload images: " ++ reported_cause err)]
  /\ saved_payloads (trace (snd r)) = [].
Proof.
  intros Hvalid Hfiles Hpost r. subst r.
  unfold upload_url in *. step_handler.
  rewrite Hvalid. cbv beta iota zeta.
  destruct (imageFiles c) as [|file rest] eqn:E; [congruence |].
  cbv [List.length Nat.eqb negb]. cbv beta iota zeta.
  rewrite Hpost. cbv beta iota zeta.
  repeat split.
Qed.

Lemma upload_failure_aborts_submit_witness :
  let r := run (handleSubmit create_props refusing_upload state_with_pending)
               state_with_pending in
  error (state (snd r)) = lit "Failed to upload images: File too large"
  /\ saved_payloads (trace (snd r)) = [].
Proof.
  assert (Hvalid : succeeds state_with_pending)
    by (apply succeeds_iff; vm_compute; reflexivity).
  assert (Hfiles : imageFiles state_with_pending <> []) by (simpl; discriminate).
  destruct (upload_failure_aborts_submit create_props refusing_upload
              (c := state_with_pending) Hvalid Hfiles eq_refl)
    as (_ & Herr & _ & _ & _ & Hsaved).
  split; [exact Herr | exact Hsaved].
Defined.

Ltac one_payload :=
  simpl; rewrite ?app_nil_r;
  split; [reflexivity |];
  split; [ intros ? [<- | []]; reflexivity | intros; reflexivity ].

(** C2: for every submission that passes validation, the image list of
    the payload handed to [createTurf] or [updateTurf] is the retained
    references in their current order followed by the references the
    upload returned, in the order of the response; the save call is made
    once whenever a user is signed in.  With no pending file the upload
    endpoint is never called and the payload holds exactly the retained
    references. *)
Theorem save_payload_image_list (props : Props) (io : Collaborators)
    (c : State) :
  succeeds c ->
  let tr := trace (snd (run (handleSubmit props io c) c)) in
  (imageFiles c = [] ->
     upload_calls tr = []
     /\ (forall p, In p (saved_payloads tr) -> imageUrls p = existingImages c)
     /\ (forall u, user props = Some u ->
           map imageUrls (saved_payloads tr) = [existingImages c]))
  /\ (forall response,
        imageFiles c <> [] ->
        api_post io upload_url (imageFiles c) = Resolved response ->
        upload_calls tr = [imageFiles c]
        /\ (forall p, In p (saved_payloads tr) ->
              imageUrls p = existingImages c ++ map fileUrl (files response))
        /\ (forall u, user props = Some u ->
              map imageUrls (saved_payloads tr)
              = [existingImages c ++ map fileUrl (files response)])).
Proof.
  intros Hvalid tr. subst tr.
  unfold upload_url in *. step_handler.
  rewrite Hvalid. cbv beta iota zeta.
  split.
  - intros E. rewrite E. cbv [List.length Nat.eqb negb]. cbv beta iota zeta.
    destruct (user props) as [u|]; cbv beta iota zeta.
    + destruct (turf props) as [t|]; cbv beta iota zeta.
      * destruct (updateTurf io (Turf.id t) _); one_payload.
      * destruct (createTurf io _); one_payload.
    + simpl. split; [reflexivity |]. split; [intros p [] | intros; discriminate].
  - intros response Hfiles Hpost.
    destruct (imageFiles c) as [|file rest] eqn:E; [congruence |].
    cbv [List.length Nat.eqb negb]. cbv beta iota zeta.
    rewrite Hpost. cbv beta iota zeta.
    destruct (user props) as [u|]; cbv beta iota zeta.
    + destruct (turf props) as [t|]; cbv beta iota zeta.
      * destruct (updateTurf io (Turf.id t) _); one_payload.
      * destruct (createTurf io _); one_payload.
    + simpl. split; [reflexivity |]. split; [intros p [] | intros; discriminate].
Qed.

Lemma save_payload_image_list_witness :
  map imageUrls
      (saved_payloads
         (trace (snd (run (handleSubmit create_props accepting_upload
                                        state_with_pending)
                          state_with_pending))))
  = [[lit "/api/files/old.png"; lit "/api/files/pitch.png"]].
Proof.
  assert (Hvalid : succeeds state_with_pending)
    by (apply succeeds_iff; vm_compute; reflexivity).
  assert (Hfiles : imageFiles state_with_pending <> []) by (simpl; discriminate).
  destruct (save_payload_image_list create_props accepting_upload Hvalid)
    as [_ Hsome].
  destruct (Hsome _ Hfiles eq_refl) as (_ & _ & Hsent).
  rewrite (Hsent (mkUser 7) eq_refl). reflexivity.
Defined.

(** Two retained references and no pending file: both go out in their
    original order and the upload endpoint is not called. *)
Example two_retained_no_pending :
  let c := with_existingImages [lit "a.png"; lit "b.png"] sample_state in
  trace (snd (run (handleSubmit create_props refusing_upload c) c))
  = [SetError [];
     CreateTurf (mkPayload sample_form (Some 7%N) [lit "a.png"; lit "b.png"]);
     Alert (lit "Turf created successfully!"); OnSuccess].
Proof. vm_compute. reflexivity. Qed.

(** A retained reference removed before submitting is left out; the
    others keep their order. *)
Example removed_reference_left_out :
  let c0 := with_existingImages [lit "a.png"; lit "b.png"; lit "c.png"]
                                sample_state in
  let c := state (snd (run (removeExistingImage 1) c0)) in
  map imageUrls
      (saved_payloads (trace (snd (run (handleSubmit create_props refusing_upload c) c))))
  = [[lit "a.png"; lit "c.png"]].
Proof. vm_compute. reflexivity. Qed.

(* ================================================================== *)
(** ** Image references *)
(* ================================================================== *)







(** The host of [getImageUrl] is the host of the default [API_URL]; a
    configured [VITE_API_URL] changes [API_URL] only. *)
Example default_API_URL :
  API_URL (mkProps None None None) = configuredHost ++ lit "/api".
Proof. reflexivity. Qed.

Example configured_API_URL :
  API_URL (mkProps None None (Some (lit "https://turf.example.com/api")))
  = lit "https://turf.example.com/api".
Proof. reflexivity. Qed.

(** C10: a missing reference ([null]) and the empty string both resolve
    to [null]: no URL is built and nothing is thrown. *)
Theorem getImageUrl_no_reference :
  getImageUrl None = None /\ getImageUrl (Some []) = None.
Proof. split; reflexivity. Qed.

(* ================================================================== *)
(** ** Staging bookkeeping *)
(* ================================================================== *)

Lemma remove_at_length {A} (index : nat) (l : list A) :
  index < List.length l -> List.length (remove_at index l) = List.length l - 1.
Proof.
  revert index. induction l as [|x l IH]; intros index H; simpl in *; [lia |].
  destruct index as [|i]; simpl; [lia |].
  rewrite IH by lia. lia.
Qed.

(** In edit mode the retained references are those of the stored turf. *)
Example price_typed_in :
  pricePerSlot
    (formData (state (snd (run (handleChange initialState (lit "pricePerSlot")
                                             (lit "750"))
                               initialState))))
  = lit "750".
Proof. reflexivity. Qed.

Example initialize_from_turf :
  let t := Turf.mk 3 (Some (lit "Green Park Arena")) None None None None None
                   None None (Some [lit "a.png"; lit "b.png"]) in
  existingImages
    (state (snd (run (useEffect_turf (mkProps (Some t) None None)) initialState)))
  = [lit "a.png"; lit "b.png"].
Proof. reflexivity. Qed.

(* ================================================================== *)
(** ** Further properties of validation *)
(* ================================================================== *)

(** X1: a name made only of white space (the empty name included) is
    reported as missing, and nothing else is; once name and phone pass,
    the same holds of the location. *)
Theorem blank_fields_count_as_missing (c : State) :
  (fails_with c EmptyName <-> blank (name (formData c)))
  /\ (name_rule (formData c) -> phone_rule (formData c) ->
      (fails_with c EmptyLocation <-> blank (location (formData c)))).
Proof.
  split.
  - rewrite fails_with_iff, <- trim_nil_iff, <- falsy_true_iff.
    unfold first_violation.
    destruct (falsy (trim (name (formData c)))).
    + split; reflexivity.
    + split; intro H; [| discriminate].
      destruct (str_length (phone (formData c)) <? 10)%N; [discriminate |].
      destruct (falsy (trim (location (formData c)))); [discriminate |].
      destruct (falsy (pricePerSlot (formData c))
                || le_zero (parseFloat (pricePerSlot (formData c))));
        [discriminate |].
      destruct (str_ge (operatingStartTime (formData c))
                       (operatingEndTime (formData c))); discriminate.
  - intros Hn Hp.
    rewrite fails_with_iff, <- trim_nil_iff, <- falsy_true_iff.
    unfold first_violation.
    apply name_check in Hn. apply phone_check in Hp. rewrite Hn, Hp.
    destruct (falsy (trim (location (formData c)))).
    + split; reflexivity.
    + split; intro H; [| discriminate].
      destruct (falsy (pricePerSlot (formData c))
                || le_zero (parseFloat (pricePerSlot (formData c))));
        [discriminate |].
      destruct (str_ge (operatingStartTime (formData c))
                       (operatingEndTime (formData c))); discriminate.
Qed.

Lemma blank_fields_count_as_missing_witness :
  fails_with (with_form (mkFormData (lit "Green Park Arena") (lit "9876543210")
                                    (lit "   ") (lit "FOOTBALL") (lit "750") []
                                    (lit "06:00") (lit "22:00")))
             EmptyLocation.
Proof.
  apply blank_fields_count_as_missing; try rule_by_computation.
  repeat constructor.
Defined.

Lemma two_digits_lt (a b : N) :
  (a < 100)%N -> (b < 100)%N ->
  (str_lt (two_digits a) (two_digits b) = true <-> (a < b)%N).
Proof.
  intros Ha Hb. unfold two_digits.
  assert (T : 10%N <> 0%N) by discriminate.
  pose proof (N.div_mod a 10 T) as Da. pose proof (N.mod_lt a 10 T) as Ma.
  pose proof (N.div_mod b 10 T) as Db. pose proof (N.mod_lt b 10 T) as Mb.
  set (qa := (a / 10)%N) in *. set (ra := (a mod 10)%N) in *.
  set (qb := (b / 10)%N) in *. set (rb := (b mod 10)%N) in *.
  cbn [str_lt].
  destruct (N.ltb_spec (48 + qa) (48 + qb)); [split; [lia | reflexivity] |].
  destruct (N.eqb_spec (48 + qa) (48 + qb)); [| split; [discriminate | lia]].
  destruct (N.ltb_spec (48 + ra) (48 + rb)); [split; [lia | reflexivity] |].
  destruct (N.eqb_spec (48 + ra) (48 + rb)); split; try discriminate; lia.
Qed.

Lemma two_digits_eq (a b : N) :
  (a < 100)%N -> (b < 100)%N -> two_digits a = two_digits b -> a = b.
Proof.
  intros Ha Hb E. unfold two_digits in E.
  assert (T : 10%N <> 0%N) by discriminate.
  pose proof (N.div_mod a 10 T) as Da. pose proof (N.div_mod b 10 T) as Db.
  set (qa := (a / 10)%N) in *. set (ra := (a mod 10)%N) in *.
  set (qb := (b / 10)%N) in *. set (rb := (b mod 10)%N) in *.
  assert (E1 : (48 + qa = 48 + qb)%N) by congruence.
  assert (E2 : (48 + ra = 48 + rb)%N) by congruence.
  lia.
Qed.

(** On time input values the string comparison is the comparison of the
    times of day. *)
Lemma hhmm_lt (h1 m1 h2 m2 : N) :
  (h1 < 24)%N -> (m1 < 60)%N -> (h2 < 24)%N -> (m2 < 60)%N ->
  (str_lt (hhmm h1 m1) (hhmm h2 m2) = true
   <-> (60 * h1 + m1 < 60 * h2 + m2)%N).
Proof.
  intros H1 M1 H2 M2.
  pose proof (@two_digits_lt h1 h2) as Lh.
  pose proof (@two_digits_lt m1 m2) as Lm.
  pose proof (@two_digits_eq h1 h2) as Eh.
  unfold hhmm, two_digits in *. cbn [app str_lt] in *.
  destruct (N.ltb_spec (48 + h1 / 10) (48 + h2 / 10)) as [A | A].
  - assert (h1 < h2)%N by (apply Lh; [lia | lia | reflexivity]).
    split; [lia | reflexivity].
  - destruct (N.eqb_spec (48 + h1 / 10) (48 + h2 / 10)) as [B | B].
    + destruct (N.ltb_spec (48 + h1 mod 10) (48 + h2 mod 10)) as [C | C].
      * assert (h1 < h2)%N by (apply Lh; [lia | lia | reflexivity]).
        split; [lia | reflexivity].
      * destruct (N.eqb_spec (48 + h1 mod 10) (48 + h2 mod 10)) as [D | D].
        -- assert (h1 = h2) by (apply Eh; [lia | lia | congruence]).
           subst h2. rewrite N.ltb_irrefl, N.eqb_refl.
           rewrite Lm by lia. lia.
        -- assert (~ (h1 < h2)%N) by (intro X; apply Lh in X; [discriminate | lia | lia]).
           assert (h1 <> h2) by congruence.
           split; [discriminate | lia].
    + assert (~ (h1 < h2)%N) by (intro X; apply Lh in X; [discriminate | lia | lia]).
      assert (h1 <> h2) by congruence.
      split; [discriminate | lia].
Qed.

(** X2: when the first four rules pass and both times are time input
    values (hh:mm, zero padded, 24 hours), validation succeeds exactly
    when the opening time is earlier in the day than the closing time;
    equal times are rejected. *)
Theorem time_check_is_chronological (c : State) (h1 m1 h2 m2 : N) :
  name_rule (formData c) -> phone_rule (formData c) ->
  location_rule (formData c) -> price_rule (formData c) ->
  operatingStartTime (formData c) = hhmm h1 m1 ->
  operatingEndTime (formData c) = hhmm h2 m2 ->
  (h1 < 24)%N -> (m1 < 60)%N -> (h2 < 24)%N -> (m2 < 60)%N ->
  (succeeds c <-> (60 * h1 + m1 < 60 * h2 + m2)%N)
  /\ (fails_with c InvalidTimeRange <-> (60 * h2 + m2 <= 60 * h1 + m1)%N).
Proof.
  intros Hn Hp Hl Hr Es Ee H1 M1 H2 M2.
  rewrite succeeds_iff, fails_with_iff. unfold first_violation.
  apply name_check in Hn. apply phone_check in Hp. apply location_check in Hl.
  destruct Hr as [Hr1 Hr2].
  apply falsy_false_iff in Hr1. apply gt_zero_not_le_zero in Hr2.
  rewrite Hn, Hp, Hl, Hr1, Hr2, Es, Ee. cbn [orb].
  unfold str_ge.
  pose proof (hhmm_lt H1 M1 H2 M2) as L.
  destruct (str_lt (hhmm h1 m1) (hhmm h2 m2)); cbn [negb].
  - assert (60 * h1 + m1 < 60 * h2 + m2)%N by (apply L; reflexivity).
    split; split; intro; try reflexivity; try discriminate; try assumption; lia.
  - assert (~ (60 * h1 + m1 < 60 * h2 + m2)%N) by (intro X; apply L in X; discriminate).
    split; split; intro; try reflexivity; try discriminate; lia.
Qed.

Lemma time_check_is_chronological_witness :
  fails_with (with_form (mkFormData (lit "Green Park Arena") (lit "9876543210")
                                    (lit "Chennai") (lit "FOOTBALL") (lit "750") []
                                    (lit "09:30") (lit "09:30")))
             InvalidTimeRange.
Proof.
  apply (@time_check_is_chronological _ 9 30 9 30);
    try rule_by_computation; try reflexivity; lia.
Defined.

Lemma is_digit_range (ch : char16) :
  is_digit ch = true <-> (48 <= ch <= 57)%N.
Proof.
  unfold is_digit. rewrite andb_true_iff, !N.leb_le. tauto.
Qed.

Lemma digit_not_white_space (ch : char16) :
  is_digit ch = true -> is_white_space ch = false.
Proof.
  intros H. apply is_digit_range in H. unfold is_white_space.
  repeat match goal with
         | |- (_ || _)%bool = false => apply orb_false_intro
         | |- (_ =? _)%N = false => apply N.eqb_neq; lia
         end.
  - apply andb_false_iff. right. apply N.leb_gt. lia.
  - apply andb_false_iff. left. apply N.leb_gt. lia.
Qed.

Lemma span_digits_all (s : jsstring) :
  all_digits s = true -> span_digits s = (s, []).
Proof.
  unfold all_digits. induction s as [|ch s IH]; simpl; [reflexivity |].
  intros H. apply andb_true_iff in H. destruct H as [Hd Hs].
  rewrite Hd, (IH Hs). reflexivity.
Qed.

Lemma span_digits_head (ch : char16) (s : jsstring) :
  is_digit ch = true -> exists ds rest, span_digits (ch :: s) = (ch :: ds, rest).
Proof.
  intros H. simpl. rewrite H.
  destruct (span_digits s) as [ds rest]. exists ds, rest. reflexivity.
Qed.

Lemma digits_value_from (ds : jsstring) (acc : N) :
  all_digits ds = true ->
  (fold_left (fun a ch => (10 * a + (ch - 48))%N) ds acc = 0%N
   <-> acc = 0%N /\ Forall (fun ch => ch = 48%N) ds).
Proof.
  unfold all_digits. revert acc.
  induction ds as [|ch ds IH]; intros acc H; cbn [fold_left].
  - split; [intro E; split; [assumption | constructor] | tauto].
  - cbn [forallb] in H. apply andb_true_iff in H. destruct H as [Hd Hs].
    apply is_digit_range in Hd. rewrite (IH _ Hs). split.
    + intros [E F]. split; [lia |]. constructor; [lia | assumption].
    + intros [E F]. inversion F; subst. split; [reflexivity | assumption].
Qed.

(** What [parseFloat] reads of text that is all digits. *)
Lemma parseFloat_digits (s : jsstring) :
  s <> [] -> all_digits s = true ->
  parseFloat s = Decimal false (digits_value s) 0.
Proof.
  intros Hne Hall. destruct s as [|ch s]; [congruence |].
  assert (Hd : is_digit ch = true).
  { unfold all_digits in Hall. simpl in Hall.
    apply andb_true_iff in Hall. tauto. }
  pose proof (digit_not_white_space _ Hd) as Hw.
  apply is_digit_range in Hd.
  unfold parseFloat. cbn [trimStart]. rewrite Hw.
  destruct (N.eqb_spec ch 45); [lia |].
  destruct (N.eqb_spec ch 43); [lia |].
  unfold parse_unsigned.
  assert (I : startsWith (ch :: s) (lit "Infinity") = false).
  { change (lit "Infinity") with (73%N :: lit "nfinity"). cbn [startsWith].
    destruct (N.eqb_spec 73 ch); [lia | reflexivity]. }
  rewrite I, (span_digits_all _ Hall). rewrite app_nil_r. reflexivity.
Qed.

(** X3: once the first three rules pass, a price written in digits only
    is rejected exactly when every digit is 0; any other whole number is
    accepted by the price check. *)
Theorem digit_price_rejected_iff_zero (c : State) :
  name_rule (formData c) -> phone_rule (formData c) ->
  location_rule (formData c) ->
  pricePerSlot (formData c) <> [] ->
  all_digits (pricePerSlot (formData c)) = true ->
  (fails_with c InvalidPrice
   <-> Forall (fun ch => ch = 48%N) (pricePerSlot (formData c))).
Proof.
  intros Hn Hp Hl Hne Hall.
  rewrite (price_rejected_iff_check c Hn Hp Hl).
  rewrite (parseFloat_digits Hne Hall). cbn [le_zero orb rounds_to_zero].
  unfold rounds_to_zero. cbn [Z.leb Z.compare].
  unfold digits_value.
  pose proof (@digits_value_from _ 0%N Hall) as D.
  destruct (N.eqb_spec
              (fold_left (fun acc ch => (10 * acc + (ch - 48))%N)
                         (pricePerSlot (formData c)) 0%N) 0) as [E | E].
  - split; [intros _; apply D; assumption | intros _; right; reflexivity].
  - split.
    + intros [H | H]; [congruence | discriminate].
    + intros F. exfalso. apply E, D. split; [reflexivity | assumption].
Qed.

Lemma digit_price_rejected_iff_zero_witness :
  fails_with zero_price_state InvalidPrice.
Proof.
  apply digit_price_rejected_iff_zero; try rule_by_computation.
  - vm_compute. discriminate.
  - reflexivity.
  - repeat constructor.
Defined.

(** X4: once the first three rules pass, a price that begins with a minus
    sign and a digit is rejected, whatever follows. *)
Theorem negative_price_rejected (c : State) (d : char16) (rest : jsstring) :
  name_rule (formData c) -> phone_rule (formData c) ->
  location_rule (formData c) ->
  pricePerSlot (formData c) = 45%N :: d :: rest ->
  is_digit d = true ->
  fails_with c InvalidPrice.
Proof.
  intros Hn Hp Hl E Hd.
  apply (price_rejected_iff_check c Hn Hp Hl). right. rewrite E.
  unfold parseFloat. cbn [trimStart].
  change (is_white_space 45%N) with false. cbv iota.
  rewrite N.eqb_refl. unfold parse_unsigned.
  assert (I : startsWith (d :: rest) (lit "Infinity") = false).
  { apply is_digit_range in Hd.
    change (lit "Infinity") with (73%N :: lit "nfinity"). cbn [startsWith].
    destruct (N.eqb_spec 73 d); [lia | reflexivity]. }
  rewrite I.
  destruct (@span_digits_head d rest Hd) as [ds [r1 S1]]. rewrite S1.
  destruct (match r1 with
            | [] => ([], r1)
            | ch :: r1' => if (ch =? 46)%N then span_digits r1' else ([], r1)
            end) as [fracs r2].
  reflexivity.
Qed.

Lemma negative_price_rejected_witness :
  fails_with negative_price_state InvalidPrice.
Proof.
  apply (@negative_price_rejected negative_price_state 53%N []);
    try rule_by_computation; reflexivity.
Defined.

(* ================================================================== *)
(** ** Further properties of image staging *)
(* ================================================================== *)

Lemma no_oversized_within_limit (files : list File.t) :
  oversized_accepted files = [] -> within_limit files.
Proof.
  intros E file Hin Himg.
  destruct (N.le_gt_cases (File.size file) 10485760) as [L | G]; [exact L |].
  exfalso.
  assert (X : In file (oversized_accepted files))
    by (apply oversized_accepted_In; tauto).
  rewrite E in X. destruct X.
Qed.

Lemma last_of_cons {A} (x : A) (l : list A) (d d' : A) :
  last (x :: l) d = last (x :: l) d'.
Proof.
  revert x. induction l as [|y l IH]; intro x; [reflexivity |].
  change (last (y :: l) d = last (y :: l) d'). apply IH.
Qed.

Lemma reported_all_state (msgs : list jsstring) (m : Machine) :
  state (reported_all msgs m)
  = with_error (last msgs (error (state m))) (state m).
Proof.
  revert m. induction msgs as [|msg msgs IH]; intro m.
  - destruct m as [[f e l i x p u] tr]. reflexivity.
  - change (reported_all (msg :: msgs) m)
      with (reported_all msgs (reported msg m)).
    rewrite IH. destruct msgs as [|msg' msgs']; [reflexivity |].
    rewrite (last_of_cons msg' msgs' _ (error (state m))). reflexivity.
Qed.

(** X5: the preview reads and the reset of the file input happen exactly
    for an accepted batch: then one read is started per accepted file, in
    selection order, after the type warnings, and the input is cleared
    last; for a batch with an oversized accepted file nothing but
    warnings is produced, so no read is started and the input keeps its
    value. *)
Theorem reads_and_reset_only_when_accepted (files : list File.t) (s : State) :
  let tr := trace (snd (run (handleImageSelect files) s)) in
  (within_limit files ->
     tr = map SetError (type_warnings files)
          ++ map ReadAsDataURL (filter is_image files) ++ [ClearInput])
  /\ (~ within_limit files ->
      Forall (fun e => exists msg, e = SetError msg) tr).
Proof.
  unfold run. rewrite handleImageSelect_run. cbv zeta. split.
  - intros H. rewrite (within_limit_no_oversized H). cbn [snd trace].
    rewrite reported_all_trace. cbn [trace app].
    rewrite <- app_assoc. reflexivity.
  - intros H.
    destruct (oversized_accepted files) as [|big bigs] eqn:E.
    + exfalso. apply H, no_oversized_within_limit, E.
    + cbn [snd]. unfold reported. cbn [trace].
      rewrite reported_all_trace. cbn [trace app].
      apply Forall_app. split.
      * apply Forall_forall. intros e Hin. apply in_map_iff in Hin.
        destruct Hin as [msg [Eq _]]. exists msg. congruence.
      * constructor; [eexists; reflexivity | constructor].
Qed.

Lemma reads_and_reset_only_when_accepted_witness :
  trace (snd (run (handleImageSelect batch_with_pdf) initialState))
  = [SetError (lit "lease.pdf is not a valid image file");
     ReadAsDataURL (png "pitch.png" 2048); ReadAsDataURL (png "goal.png" 4096);
     ClearInput].
Proof.
  assert (H : within_limit batch_with_pdf).
  { intros file Hin _.
    destruct Hin as [E | [E | [E | []]]]; subst file; simpl; lia. }
  destruct (reads_and_reset_only_when_accepted batch_with_pdf initialState)
    as [A _].
  rewrite (A H). reflexivity.
Defined.

(** X6: an accepted selection does not clear an error that is already
    shown: afterwards the [error] state holds the warning of the last
    file of another media type, and when the batch has no such file it is
    what it was before. *)
Theorem accepted_selection_keeps_error (files : list File.t) (m : Machine) :
  within_limit files ->
  error (state (snd (handleImageSelect files m)))
  = last (type_warnings files) (error (state m)).
Proof.
  intros H. rewrite handleImageSelect_run. cbv zeta.
  rewrite (within_limit_no_oversized H). cbn [snd state].
  rewrite reported_all_state. reflexivity.
Qed.

Lemma accepted_selection_keeps_error_witness :
  error (state (snd (handleImageSelect [png "pitch.png" 2048]
                       (mkMachine (with_error (lit "Location is required")
                                              initialState) []))))
  = lit "Location is required".
Proof.
  rewrite accepted_selection_keeps_error; [reflexivity |].
  intros file [E | []] _. subst file. simpl. lia.
Defined.

Lemma remove_at_In {A} (index : nat) (l : list A) (x : A) :
  In x (remove_at index l) -> In x l.
Proof.
  revert index. induction l as [|y l IH]; intros index H; [destruct index; exact H |].
  destruct index as [|i]; simpl in H.
  - right; exact H.
  - destruct H as [E | H]; [left; exact E | right; exact (IH _ H)].
Qed.

(** X7: the staging invariant: if every pending file is an image of at
    most 10 MiB, this is still so after any selection, whatever the batch
    holds, and after any removal. *)
Theorem staging_invariant_kept (files : list File.t) (index : nat)
    (m : Machine) :
  staged_ok (state m) ->
  staged_ok (state (snd (handleImageSelect files m)))
  /\ staged_ok (state (snd (removeNewImage index m)))
  /\ staged_ok (state (snd (removeExistingImage index m))).
Proof.
  unfold staged_ok. intros H. repeat split.
  - rewrite handleImageSelect_run. cbv zeta.
    destruct (oversized_accepted files) as [|big bigs] eqn:E; cbn [snd state].
    + cbn [imageFiles with_imageFiles]. rewrite reported_all_imageFiles.
      apply Forall_app. split; [exact H |].
      apply Forall_forall. intros file Hin.
      apply filter_In in Hin. destruct Hin as [Hin Himg].
      split; [exact Himg |].
      exact (@no_oversized_within_limit files E file Hin Himg).
    + unfold reported. cbn [state]. rewrite reported_all_state. exact H.
  - cbn. apply Forall_forall. intros file Hin.
    apply remove_at_In in Hin. rewrite Forall_forall in H. auto.
  - exact H.
Qed.

Lemma staging_invariant_kept_witness :
  staged_ok (state (snd (handleImageSelect mixed_batch machine0))).
Proof.
  apply (@staging_invariant_kept mixed_batch 0 machine0). constructor.
Defined.

(** X8: selecting files changes nothing but the pending list and the
    error: the form fields, the retained references, the previews already
    there and the busy flags are as before. *)
Theorem selection_leaves_rest_alone (files : list File.t) (m : Machine) :
  let s' := state (snd (handleImageSelect files m)) in
  formData s' = formData (state m)
  /\ existingImages s' = existingImages (state m)
  /\ imagePreviewUrls s' = imagePreviewUrls (state m)
  /\ loading s' = loading (state m)
  /\ uploadingImages s' = uploadingImages (state m).
Proof.
  rewrite handleImageSelect_run. cbv zeta.
  destruct (oversized_accepted files); unfold reported; cbn [snd state];
    rewrite reported_all_state; repeat split.
Qed.

Lemma complete_reads_run (order : list File.t) (m : Machine) :
  complete_reads order m
  = (Normal tt,
     mkMachine (with_imagePreviewUrls
                  (imagePreviewUrls (state m) ++ map File.dataURL order)
                  (state m))
               (trace m)).
Proof.
  unfold complete_reads. revert m.
  induction order as [|file order IH]; intro m.
  - cbn. rewrite app_nil_r. destruct m as [[f e l i x p u] tr]. reflexivity.
  - cbn [forEach]. unfold bind.
    change (onloadend file m)
      with (Normal tt,
            mkMachine (with_imagePreviewUrls
                         (imagePreviewUrls (state m) ++ [File.dataURL file])
                         (state m))
                      (trace m)).
    cbv beta iota. rewrite IH. cbn. rewrite <- app_assoc. reflexivity.
Qed.

(** X9: once the readers of an accepted batch have all finished, in
    whatever order, the preview list has grown by one entry per accepted
    file, the results being appended in the order of completion; if
    there were as many previews as pending files before, there are again
    as many afterwards. *)
Theorem previews_follow_completion_order (files order : list File.t)
    (m : Machine) :
  within_limit files ->
  Permutation order (filter is_image files) ->
  let m1 := snd (handleImageSelect files m) in
  let s2 := state (snd (complete_reads order m1)) in
  imagePreviewUrls s2 = imagePreviewUrls (state m) ++ map File.dataURL order
  /\ imageFiles s2 = imageFiles (state m) ++ filter is_image files
  /\ (List.length (imagePreviewUrls (state m)) = List.length (imageFiles (state m)) ->
      List.length (imagePreviewUrls s2) = List.length (imageFiles s2)).
Proof.
  intros H P m1 s2. subst s2 m1.
  rewrite complete_reads_run, handleImageSelect_run. cbv zeta.
  rewrite (within_limit_no_oversized H). cbn [snd state].
  cbn [imagePreviewUrls imageFiles with_imagePreviewUrls with_imageFiles].
  rewrite reported_all_state. cbn [imagePreviewUrls imageFiles with_error].
  repeat split.
  intros E. rewrite !length_app, length_map, E.
  rewrite (Permutation_length P). reflexivity.
Qed.

Lemma previews_follow_completion_order_witness :
  imagePreviewUrls
    (state (snd (complete_reads
                   [jpg "b.jpg" 10 "data:b"; jpg "a.jpg" 9000 "data:a"]
                   (snd (handleImageSelect
                           [jpg "a.jpg" 9000 "data:a"; jpg "b.jpg" 10 "data:b"]
                           machine0)))))
  = [Some (lit "data:b"); Some (lit "data:a")].
Proof.
  assert (H : within_limit [jpg "a.jpg" 9000 "data:a"; jpg "b.jpg" 10 "data:b"]).
  { intros file [E | [E | []]] _; subst file; simpl; lia. }
  assert (P : Permutation [jpg "b.jpg" 10 "data:b"; jpg "a.jpg" 9000 "data:a"]
                (filter is_image
                        [jpg "a.jpg" 9000 "data:a"; jpg "b.jpg" 10 "data:b"])).
  { apply perm_swap. }
  destruct (previews_follow_completion_order machine0 H P) as [E _].
  exact E.
Defined.

(** X10: previews and pending files can fall out of step.  Two accepted
    files [f] and [g] with different contents are selected in that order
    into an empty staging area; the read of [g] finishes first;
    [removeNewImage 0] then drops the file [f] but the preview of [g]:
    what is left is the file [g] shown with the preview of [f]. *)
Theorem removal_can_mismatch_preview (f g : File.t) (s : State) :
  is_image f = true -> is_image g = true ->
  (File.size f <= 10485760)%N -> (File.size g <= 10485760)%N ->
  File.dataURL f <> File.dataURL g ->
  imageFiles s = [] -> imagePreviewUrls s = [] ->
  let m1 := snd (run (handleImageSelect [f; g]) s) in
  let m2 := snd (complete_reads [g; f] m1) in
  let s3 := state (snd (removeNewImage 0 m2)) in
  imageFiles s3 = [g]
  /\ imagePreviewUrls s3 = [File.dataURL f]
  /\ map File.dataURL (imageFiles s3) <> imagePreviewUrls s3.
Proof.
  intros If Ig Sf Sg D Ef Ep m1 m2 s3. subst s3 m2 m1.
  assert (H : within_limit [f; g]).
  { intros file [E | [E | []]] _; subst file; assumption. }
  unfold run. rewrite complete_reads_run, handleImageSelect_run. cbv zeta.
  rewrite (within_limit_no_oversized H). cbn [snd state].
  cbn [filter]. rewrite If, Ig.
  cbn. rewrite !reported_all_state. cbn. rewrite Ef, Ep. cbn.
  repeat split. congruence.
Qed.

Lemma removal_can_mismatch_preview_witness :
  let f := jpg "a.jpg" 9000 "data:a" in
  let g := jpg "b.jpg" 10 "data:b" in
  let m1 := snd (run (handleImageSelect [f; g]) initialState) in
  let m2 := snd (complete_reads [g; f] m1) in
  let s3 := state (snd (removeNewImage 0 m2)) in
  map File.dataURL (imageFiles s3) <> imagePreviewUrls s3.
Proof.
  intros f g.
  apply (@removal_can_mismatch_preview f g initialState);
    try reflexivity; try (simpl; lia).
  vm_compute. discriminate.
Defined.

Lemma remove_at_filter_index_from {A} (start index : nat) (l : list A) :
  filter_index (fun i => negb (i =? start + index)%nat) start l
  = remove_at index l.
Proof.
  revert start index. induction l as [|x l IH]; intros start index;
    [destruct index; reflexivity |].
  cbn [filter_index]. destruct index as [|i].
  - rewrite Nat.add_0_r, Nat.eqb_refl. cbn [negb remove_at].
    clear IH. revert start. induction l as [|y l IH]; intro start; [reflexivity |].
    cbn [filter_index].
    destruct (Nat.eqb_spec (S start) start) as [E | _]; [lia |].
    cbn [negb]. f_equal.
    specialize (IH (S start)).
    assert (G : forall k (l' : list A), (start < k)%nat ->
              filter_index (fun i => negb (i =? start)%nat) k l' = l').
    { clear. intros k l'. revert k. induction l' as [|z l' IH']; intros k Hk;
        [reflexivity |].
      cbn [filter_index]. destruct (Nat.eqb_spec k start); [lia |].
      cbn [negb]. f_equal. apply IH'. lia. }
    apply G. lia.
  - destruct (Nat.eqb_spec start (start + S i)) as [E | _]; [lia |].
    cbn [negb remove_at]. f_equal.
    replace (start + S i)%nat with (S start + i)%nat by lia. apply IH.
Qed.

Lemma remove_at_split {A} (index : nat) (l : list A) :
  remove_at index l = firstn index l ++ skipn (S index) l.
Proof.
  revert index. induction l as [|x l IH]; intros [|i]; try reflexivity.
  cbn [remove_at firstn skipn app]. f_equal. apply IH.
Qed.

Lemma remove_at_beyond {A} (index : nat) (l : list A) :
  List.length l <= index -> remove_at index l = l.
Proof.
  revert index. induction l as [|x l IH]; intros [|i] H; simpl in *;
    try reflexivity; try lia.
  f_equal. apply IH. lia.
Qed.

(** X11: [removeExistingImage index] keeps exactly the retained
    references whose position is not [index], in their order: those
    before it followed by those after it.  An index past the end removes
    nothing, and the pending files and previews are never touched. *)
Theorem removeExistingImage_drops_one_position (index : nat) (m : Machine) :
  let l := existingImages (state m) in
  let s' := state (snd (removeExistingImage index m)) in
  existingImages s' = filter_index (fun i => negb (i =? index)%nat) 0 l
  /\ existingImages s' = firstn index l ++ skipn (S index) l
  /\ (List.length l <= index -> existingImages s' = l)
  /\ (index < List.length l ->
      List.length (existingImages s') = List.length l - 1)
  /\ imageFiles s' = imageFiles (state m)
  /\ imagePreviewUrls s' = imagePreviewUrls (state m).
Proof.
  cbn. repeat split.
  - symmetry. apply (remove_at_filter_index_from 0 index).
  - apply remove_at_split.
  - apply remove_at_beyond.
  - apply remove_at_length.
Qed.

Lemma removeExistingImage_drops_one_position_witness :
  existingImages
    (state (snd (removeExistingImage 5
                   (mkMachine (with_existingImages [lit "a.png"; lit "b.png"]
                                                   initialState) []))))
  = [lit "a.png"; lit "b.png"].
Proof.
  apply (removeExistingImage_drops_one_position 5
           (mkMachine (with_existingImages [lit "a.png"; lit "b.png"]
                                           initialState) [])).
  simpl. lia.
Defined.

(** X12: [removeNewImage index] removes the same position from the
    pending files and from the previews, leaves the retained references
    alone, and lowers the image count by one when the position holds a
    pending file; lists of equal length stay of equal length. *)
Theorem removeNewImage_drops_file_and_preview (index : nat) (m : Machine) :
  let s := state m in
  let s' := state (snd (removeNewImage index m)) in
  imageFiles s' = firstn index (imageFiles s) ++ skipn (S index) (imageFiles s)
  /\ imagePreviewUrls s'
     = firstn index (imagePreviewUrls s) ++ skipn (S index) (imagePreviewUrls s)
  /\ existingImages s' = existingImages s
  /\ (index < List.length (imageFiles s) -> totalImages s' = totalImages s - 1)
  /\ (List.length (imageFiles s) <= index -> totalImages s' = totalImages s)
  /\ (List.length (imagePreviewUrls s) = List.length (imageFiles s) ->
      List.length (imagePreviewUrls s') = List.length (imageFiles s')).
Proof.
  cbn. unfold totalImages. cbn. repeat split.
  - apply remove_at_split.
  - apply remove_at_split.
  - intros H. rewrite (remove_at_length _ H). lia.
  - intros H. rewrite (remove_at_beyond _ H). reflexivity.
  - intros E.
    destruct (Nat.lt_ge_cases index (List.length (imageFiles (state m)))) as [L | G].
    + rewrite !remove_at_length by lia. lia.
    + rewrite !remove_at_beyond by lia. exact E.
Qed.

Lemma removeNewImage_drops_file_and_preview_witness :
  totalImages (state (snd (removeNewImage 0 (mkMachine state_with_pending []))))
  = 1.
Proof.
  destruct (removeNewImage_drops_file_and_preview 0
              (mkMachine state_with_pending []))
    as (_ & _ & _ & T & _).
  rewrite T; [reflexivity | simpl; lia].
Defined.

(* ================================================================== *)
(** ** Further properties of submission *)
(* ================================================================== *)

Ltac submit_steps :=
  cbv [submit run handleSubmit uploadImages user_userId bind ret throw
       try_catch_finally modify emit await setError setLoading
       setUploadingImages reported state trace].

Ltac settle_upload c H :=
  let E := fresh "E" in
  let Hne := fresh "Hne" in
  let response := fresh "response" in
  let Hpost := fresh "Hpost" in
  destruct H as [[E ->] | [Hne [response [Hpost ->]]]];
  [ rewrite E; cbv [List.length Nat.eqb negb]; cbv beta iota zeta
  | unfold upload_url in Hpost;
    destruct (imageFiles c) eqn:E; [congruence |];
    cbv [List.length Nat.eqb negb]; cbv beta iota zeta;
    rewrite Hpost; cbv beta iota zeta ].

(** X13: a submission whose form fails validation does nothing but show
    the error of the failing rule: no request is made, the busy flag is
    not raised, and the staged images are as they were. *)
Theorem invalid_form_sends_nothing (props : Props) (io : Collaborators)
    (c : State) (e : ValidationError) :
  fails_with c e ->
  submit props io c
  = (Normal tt,
     mkMachine (with_error (error_message e) c)
               [SetError []; SetError (error_message e)]).
Proof.
  intros H. submit_steps. rewrite (H _). reflexivity.
Qed.

Lemma invalid_form_sends_nothing_witness :
  requests (trace (snd (submit create_props accepting_upload letters_phone_state)))
  = [].
Proof.
  assert (F : fails_with letters_phone_state PhoneTooShort)
    by (apply fails_with_iff; vm_compute; reflexivity).
  rewrite (invalid_form_sends_nothing create_props accepting_upload F).
  reflexivity.
Defined.

(** X14: when the upload does not fail and the save call is rejected,
    the submission ends with the message of that rejection in the
    [error] state (a fixed message when it has none), the busy flags
    cleared, and no success signalled: the trace is the upload request
    (if there were pending files), the save call and the error, with no
    [alert] and no [onSuccess].  Nothing is done about the files already
    uploaded. *)
Theorem save_failure_reported (props : Props) (io : Collaborators)
    (c : State) (u : User) (urls : list jsstring) (err : Error) :
  succeeds c ->
  user props = Some u ->
  upload_yields io c urls ->
  save_settles props io c (userId u) (existingImages c ++ urls) = Rejected err ->
  let r := submit props io c in
  fst r = Normal tt
  /\ trace (snd r)
     = SetError [] :: upload_events c
       ++ [save_event props c (userId u) (existingImages c ++ urls);
           SetError (or_else (message err) save_fallback)]
  /\ error (state (snd r)) = or_else (message err) save_fallback
  /\ loading (state (snd r)) = false
  /\ (uploadingImages c = false -> uploadingImages (state (snd r)) = false).
Proof.
  intros Hvalid Hu Hup Hsave r. subst r.
  unfold save_settles, save_event, upload_events in *.
  submit_steps. rewrite Hvalid. cbv beta iota zeta.
  settle_upload c Hup; rewrite Hu; cbv beta iota zeta;
    destruct (turf props) as [edited|]; rewrite Hsave; cbv beta iota zeta;
    repeat split; auto.
Qed.

Lemma save_failure_reported_witness :
  let r := submit create_props refusing_save state_with_pending in
  error (state (snd r)) = lit "Network Error"
  /\ requests (trace (snd r)) = [Upload; Save].
Proof.
  assert (Hvalid : succeeds state_with_pending)
    by (apply succeeds_iff; vm_compute; reflexivity).
  assert (Hup : upload_yields refusing_save state_with_pending
                              [lit "/api/files/pitch.png"]).
  { right. split; [simpl; discriminate |].
    eexists. split; reflexivity. }
  destruct (@save_failure_reported create_props refusing_save state_with_pending
              (mkUser 7) _ (mkError (lit "Network Error") None)
              Hvalid eq_refl Hup eq_refl)
    as (_ & Htr & Herr & _).
  split; [exact Herr |]. rewrite Htr. reflexivity.
Defined.

(** X15: when the upload does not fail and the save call resolves, the
    submission makes that one save call, in edit mode [updateTurf] on the
    id of the turf with a payload that carries no owner, otherwise
    [createTurf] with the signed-in user as owner, then shows the success
    message and signals [onSuccess], in this order; no error is left and
    the busy flags are cleared. *)
Theorem successful_submit (props : Props) (io : Collaborators)
    (c : State) (u : User) (urls : list jsstring) :
  succeeds c ->
  user props = Some u ->
  upload_yields io c urls ->
  save_settles props io c (userId u) (existingImages c ++ urls) = Resolved tt ->
  let r := submit props io c in
  fst r = Normal tt
  /\ trace (snd r)
     = SetError [] :: upload_events c
       ++ [save_event props c (userId u) (existingImages c ++ urls);
           Alert (success_alert props); OnSuccess]
  /\ error (state (snd r)) = []
  /\ loading (state (snd r)) = false
  /\ (uploadingImages c = false -> uploadingImages (state (snd r)) = false).
Proof.
  intros Hvalid Hu Hup Hsave r. subst r.
  unfold save_settles, save_event, upload_events, success_alert in *.
  submit_steps. rewrite Hvalid. cbv beta iota zeta.
  settle_upload c Hup; rewrite Hu; cbv beta iota zeta;
    destruct (turf props) as [edited|]; rewrite Hsave; cbv beta iota zeta;
    repeat split; auto.
Qed.

Lemma successful_submit_witness :
  trace (snd (submit create_props accepting_upload state_with_pending))
  = [SetError [];
     ApiPost upload_url [png "pitch.png" 2048];
     CreateTurf (mkPayload sample_form (Some 7%N)
                           [lit "/api/files/old.png"; lit "/api/files/pitch.png"]);
     Alert (lit "Turf created successfully!"); OnSuccess].
Proof.
  assert (Hvalid : succeeds state_with_pending)
    by (apply succeeds_iff; vm_compute; reflexivity).
  assert (Hup : upload_yields accepting_upload state_with_pending
                              [lit "/api/files/pitch.png"]).
  { right. split; [simpl; discriminate |].
    eexists. split; reflexivity. }
  destruct (@successful_submit create_props accepting_upload state_with_pending
              (mkUser 7) _ Hvalid eq_refl Hup eq_refl)
    as (_ & Htr & _).
  rewrite Htr. reflexivity.
Defined.

(** X16: with no signed-in user, no save call is made, in edit mode as in
    create mode (the owner id is read before either call): a valid
    submission uploads its pending files and then stops with an error. *)
Theorem no_user_no_save (props : Props) (io : Collaborators)
    (c : State) (urls : list jsstring) :
  succeeds c ->
  user props = None ->
  upload_yields io c urls ->
  let r := submit props io c in
  fst r = Normal tt
  /\ (exists msg, trace (snd r) = SetError [] :: upload_events c ++ [SetError msg]
                  /\ error (state (snd r)) = msg /\ msg <> [])
  /\ saved_payloads (trace (snd r)) = []
  /\ loading (state (snd r)) = false.
Proof.
  intros Hvalid Hu Hup r. subst r.
  unfold upload_events in *.
  submit_steps. rewrite Hvalid. cbv beta iota zeta.
  settle_upload c Hup; rewrite Hu; cbv beta iota zeta;
    (split; [reflexivity |]);
    (split; [eexists; split; [reflexivity | split; [reflexivity | discriminate]] |]);
    split; reflexivity.
Qed.

Lemma no_user_no_save_witness :
  requests (trace (snd (submit edit_props_signed_out accepting_upload
                               state_with_pending)))
  = [Upload].
Proof.
  assert (Hvalid : succeeds state_with_pending)
    by (apply succeeds_iff; vm_compute; reflexivity).
  assert (Hup : upload_yields accepting_upload state_with_pending
                              [lit "/api/files/pitch.png"]).
  { right. split; [simpl; discriminate |].
    eexists. split; reflexivity. }
  destruct (@no_user_no_save edit_props_signed_out accepting_upload
              state_with_pending _ Hvalid eq_refl Hup)
    as (_ & [msg [Htr _]] & _).
  rewrite Htr. reflexivity.
Defined.

Ltac submit_branches c :=
  submit_steps; rewrite validateForm_run;
  destruct (first_violation (formData c)) eqn:?;
  cbv [reported state trace negb fst snd]; cbv beta iota zeta;
  [ | destruct (imageFiles c) eqn:?;
      cbv [List.length Nat.eqb negb]; cbv beta iota zeta;
      repeat match goal with
             | |- context [api_post ?io ?url ?batch] =>
                 destruct (api_post io url batch); cbv beta iota zeta
             | |- context [user ?p] => destruct (user p); cbv beta iota zeta
             | |- context [turf ?p] => destruct (turf p); cbv beta iota zeta
             | |- context [updateTurf ?io ?i ?p] =>
                 destruct (updateTurf io i p); cbv beta iota zeta
             | |- context [createTurf ?io ?p] =>
                 destruct (createTurf io p); cbv beta iota zeta
             end ].

(** X17: no exception escapes [handleSubmit], and it never leaves the
    form busy: started with both busy flags down, it ends with both busy
    flags down, whatever the collaborators answer. *)
Theorem submit_releases_busy_flags (props : Props) (io : Collaborators)
    (c : State) :
  loading c = false -> uploadingImages c = false ->
  let r := submit props io c in
  fst r = Normal tt
  /\ loading (state (snd r)) = false
  /\ uploadingImages (state (snd r)) = false.
Proof.
  intros L U r. subst r. submit_branches c; repeat split; assumption.
Qed.

Lemma submit_releases_busy_flags_witness :
  loading (state (snd (submit create_props refusing_upload state_with_pending)))
  = false.
Proof.
  apply (@submit_releases_busy_flags create_props refusing_upload
           state_with_pending); reflexivity.
Defined.

(** X18: a submission never changes what is staged or typed: the form
    fields, the pending files, the retained references and the previews
    are the same after it as before, whether it succeeded or failed. *)
Theorem submit_keeps_form_and_staging (props : Props) (io : Collaborators)
    (c : State) :
  let s' := state (snd (submit props io c)) in
  formData s' = formData c
  /\ imageFiles s' = imageFiles c
  /\ existingImages s' = existingImages c
  /\ imagePreviewUrls s' = imagePreviewUrls c.
Proof.
  submit_branches c; repeat split; auto.
Qed.



(** X20: a submission makes at most one upload request and at most one
    save call, and an upload request always comes before the save call. *)
Theorem requests_in_order (props : Props) (io : Collaborators) (c : State) :
  let rs := requests (trace (snd (submit props io c))) in
  rs = [] \/ rs = [Upload] \/ rs = [Save] \/ rs = [Upload; Save].
Proof.
  submit_branches c; cbn; tauto.
Qed.

(** X21: nothing remembers an upload whose save failed.  When a
    submission has uploaded its pending files and the save call is then
    rejected, submitting again from the state it left uploads the same
    batch once more. *)
Theorem resubmit_uploads_again (props : Props) (io : Collaborators)
    (c : State) (u : User) (response : UploadResponse) (err : Error) :
  succeeds c ->
  user props = Some u ->
  imageFiles c <> [] ->
  api_post io upload_url (imageFiles c) = Resolved response ->
  save_settles props io c (userId u)
               (existingImages c ++ map fileUrl (files response))
  = Rejected err ->
  let first := submit props io c in
  let again := submit props io (state (snd first)) in
  upload_calls (trace (snd first)) = [imageFiles c]
  /\ upload_calls (trace (snd again)) = [imageFiles c].
Proof.
  intros Hvalid Hu Hne Hpost Hsave first again. subst again first.
  apply succeeds_iff in Hvalid.
  unfold save_settles, upload_url in *.
  assert (S1 : exists msg,
             state (snd (submit props io c))
             = with_loading false
                 (with_error msg
                    (with_uploadingImages false
                       (with_uploadingImages true
                          (with_loading true (with_error [] c)))))
             /\ upload_calls (trace (snd (submit props io c))) = [imageFiles c]).
  { submit_steps. rewrite validateForm_run, Hvalid. cbv beta iota zeta.
    destruct (imageFiles c) eqn:E; [congruence |].
    cbv [List.length Nat.eqb negb]. cbv beta iota zeta.
    rewrite Hpost. cbv beta iota zeta. rewrite Hu. cbv beta iota zeta.
    destruct (turf props) as [edited|]; rewrite Hsave; cbv beta iota zeta;
      eexists; split; reflexivity. }
  destruct S1 as [msg [S1 U1]]. split; [exact U1 |].
  rewrite S1. clear S1 U1.
  submit_steps. rewrite validateForm_run.
  cbn [formData with_loading with_error with_uploadingImages
       imageFiles existingImages].
  rewrite Hvalid. cbv beta iota zeta.
  destruct (imageFiles c) eqn:E; [congruence |].
  cbv [List.length Nat.eqb negb]. cbv beta iota zeta.
  rewrite Hpost. cbv beta iota zeta. rewrite Hu. cbv beta iota zeta.
  destruct (turf props) as [edited|]; rewrite Hsave; reflexivity.
Qed.

Lemma resubmit_uploads_again_witness :
  let first := submit create_props refusing_save state_with_pending in
  upload_calls (trace (snd (submit create_props refusing_save (state (snd first)))))
  = [[png "pitch.png" 2048]].
Proof.
  assert (Hvalid : succeeds state_with_pending)
    by (apply succeeds_iff; vm_compute; reflexivity).
  assert (Hne : imageFiles state_with_pending <> []) by (simpl; discriminate).
  destruct (@resubmit_uploads_again create_props refusing_save state_with_pending
              (mkUser 7) _ (mkError (lit "Network Error") None)
              Hvalid eq_refl Hne eq_refl eq_refl)
    as [_ A].
  exact A.
Defined.

(* ================================================================== *)
(** ** Opening the form *)
(* ================================================================== *)

Lemma or_else_nil (s : jsstring) : or_else s [] = s.
Proof. destruct s; reflexivity. Qed.

Lemma opt_or_else_nil (x : option jsstring) : opt_or_else x [] = stored x.
Proof. destruct x as [s|]; [apply or_else_nil | reflexivity]. Qed.

Lemma opened_edit (props : Props) (t : Turf.t) :
  turf props = Some t ->
  opened props
  = mkState
      (mkFormData (stored (Turf.name t)) (stored (Turf.phone t))
                  (stored (Turf.location t))
                  (opt_or_else (Turf.type t) (lit "FOOTBALL"))
                  (stored (Turf.pricePerSlot t)) (stored (Turf.description t))
                  (opt_or_else (Turf.operatingStartTime t) (lit "06:00"))
                  (opt_or_else (Turf.operatingEndTime t) (lit "22:00")))
      [] false [] (stored_images t) [] false.
Proof.
  intros Ht. unfold opened, run, useEffect_turf, stored_images. rewrite Ht.
  rewrite !opt_or_else_nil.
  destruct (Turf.imageUrls t) as [[|url urls]|]; reflexivity.
Qed.

(** X22: opening the form.  In edit mode the retained references are
    exactly the stored ones, in their order (so the first stored reference
    is at position 0), there is no pending file, and the image count is
    the number of stored references; a turf stored without references, or
    with an empty list, gives an empty staging area.  In create mode the
    component starts from its initial state. *)
Theorem opened_form_staging (props : Props) :
  (forall t, turf props = Some t ->
     existingImages (opened props) = stored_images t
     /\ imageFiles (opened props) = []
     /\ totalImages (opened props) = List.length (stored_images t)
     /\ hd_error (existingImages (opened props)) = hd_error (stored_images t))
  /\ (turf props = None -> opened props = initialState).
Proof.
  split.
  - intros t Ht. rewrite (opened_edit props Ht). unfold totalImages. cbn.
    repeat split. lia.
  - intros Hn. unfold opened, run, useEffect_turf. rewrite Hn. reflexivity.
Qed.

Lemma opened_form_staging_witness :
  totalImages (opened edit_props) = 2.
Proof.
  destruct (opened_form_staging edit_props) as [A _].
  destruct (A stored_turf eq_refl) as (_ & _ & T & _).
  rewrite T. reflexivity.
Defined.

(** X23: saving an edit without touching the form hands the stored turf
    back: when the opened form passes validation and a user is signed in,
    the one request of the submission is [updateTurf] on the id of the
    turf, with no owner in the payload, the stored image references in
    their order, and the stored name, phone, location, price and
    description. *)
Theorem untouched_edit_round_trip (props : Props) (io : Collaborators)
    (t : Turf.t) (u : User) :
  turf props = Some t ->
  user props = Some u ->
  succeeds (opened props) ->
  exists p,
    requests (trace (snd (submit props io (opened props)))) = [Save]
    /\ In (UpdateTurf (Turf.id t) p) (trace (snd (submit props io (opened props))))
    /\ ownerId p = None
    /\ imageUrls p = stored_images t
    /\ name (fields p) = stored (Turf.name t)
    /\ phone (fields p) = stored (Turf.phone t)
    /\ location (fields p) = stored (Turf.location t)
    /\ pricePerSlot (fields p) = stored (Turf.pricePerSlot t)
    /\ description (fields p) = stored (Turf.description t).
Proof.
  intros Ht Hu Hvalid.
  pose proof (opened_edit props Ht) as O.
  set (c := opened props) in *.
  assert (Ef : imageFiles c = []) by (rewrite O; reflexivity).
  exists (mkPayload (formData c) None (existingImages c ++ [])).
  submit_steps. rewrite Hvalid. cbv beta iota zeta.
  rewrite Ef. cbv [List.length Nat.eqb negb]. cbv beta iota zeta.
  rewrite Hu, Ht. cbv beta iota zeta.
  rewrite app_nil_r.
  destruct (updateTurf io (Turf.id t) _); cbn;
    rewrite O; cbn; repeat split; tauto.
Qed.

Lemma untouched_edit_round_trip_witness :
  exists p,
    In (UpdateTurf 3 p)
       (trace (snd (submit edit_props accepting_upload (opened edit_props))))
    /\ imageUrls p = [lit "/api/files/a.png"; lit "b.png"].
Proof.
  assert (Hvalid : succeeds (opened edit_props))
    by (apply succeeds_iff; vm_compute; reflexivity).
  destruct (@untouched_edit_round_trip edit_props accepting_upload stored_turf
              (mkUser 7) eq_refl eq_refl Hvalid)
    as [p (_ & Hin & _ & Himg & _)].
  exists p. split; [exact Hin | exact Himg].
Defined.

(* ================================================================== *)
(** ** Further properties of image references *)
(* ================================================================== *)

Lemma getImageUrl_cases (url : jsstring) :
  url <> [] ->
  (absolute url /\ getImageUrl (Some url) = Some url)
  \/ getImageUrl (Some url) = Some (configuredHost ++ url)
  \/ getImageUrl (Some url) = Some (configuredHost ++ lit "/api/files/" ++ url).
Proof.
  intros Hne. unfold getImageUrl, absolute, configuredHost.
  apply falsy_false_iff in Hne. rewrite Hne.
  destruct (startsWith url (lit "http://")) eqn:H1; cbn [orb].
  - left. split; [left; reflexivity | reflexivity].
  - destruct (startsWith url (lit "https://")) eqn:H2.
    + left. split; [right; reflexivity | reflexivity].
    + right. destruct (startsWith url (lit "/api")); [left | right]; reflexivity.
Qed.

Lemma absolute_resolves_to_itself (url : jsstring) :
  absolute url -> getImageUrl (Some url) = Some url.
Proof.
  intros H. unfold getImageUrl.
  destruct url as [|ch url]; [destruct H as [H | H]; discriminate |].
  cbn [falsy]. destruct H as [H | H]; rewrite H; [reflexivity |].
  rewrite orb_true_r. reflexivity.
Qed.

Lemma host_prefixed_absolute (rest : jsstring) : absolute (configuredHost ++ rest).
Proof. left. reflexivity. Qed.

(** X24: the helper answers [null] only for a missing or empty reference;
    every other reference resolves to a URL that begins with [http://] or
    [https://]. *)
Theorem getImageUrl_absolute_or_null (imageUrl : option jsstring) :
  (getImageUrl imageUrl = None <-> imageUrl = None \/ imageUrl = Some [])
  /\ (forall resolved, getImageUrl imageUrl = Some resolved -> absolute resolved).
Proof.
  destruct imageUrl as [[|ch url]|].
  - split; [split; [right | ]; reflexivity | discriminate].
  - assert (Hne : ch :: url <> []) by discriminate.
    destruct (getImageUrl_cases Hne) as [[A E] | [E | E]]; rewrite E; split;
      try (split; [discriminate | intros [X | X]; discriminate]);
      intros resolved R; injection R as <-;
      [exact A | apply host_prefixed_absolute | apply host_prefixed_absolute].
  - split; [split; [left | ]; reflexivity | discriminate].
Qed.

Lemma getImageUrl_absolute_or_null_witness :
  absolute (lit "http://localhost:8080/api/files/uploads/pitch.png").
Proof.
  apply (getImageUrl_absolute_or_null (Some (lit "uploads/pitch.png"))).
  reflexivity.
Defined.

(** X25: resolving is idempotent: a resolved reference resolves to
    itself, so passing a reference through the helper twice is the same
    as passing it once. *)
Theorem getImageUrl_idempotent (imageUrl : option jsstring) :
  getImageUrl (getImageUrl imageUrl) = getImageUrl imageUrl.
Proof.
  destruct imageUrl as [[|ch url]|]; try reflexivity.
  assert (Hne : ch :: url <> []) by discriminate.
  destruct (getImageUrl_cases Hne) as [[A E] | [E | E]]; rewrite E.
  - exact E.
  - apply absolute_resolves_to_itself, host_prefixed_absolute.
  - apply absolute_resolves_to_itself, host_prefixed_absolute.
Qed.

(** X26: a bare file identifier and the same identifier under
    [/api/files/] resolve to the same URL: for every non-empty reference
    that begins with none of [http://], [https://] and [/api]. *)
Theorem bare_and_rooted_resolve_alike (ident : jsstring) :
  ident <> [] ->
  startsWith ident (lit "http://") = false ->
  startsWith ident (lit "https://") = false ->
  startsWith ident (lit "/api") = false ->
  getImageUrl (Some (lit "/api/files/" ++ ident)) = getImageUrl (Some ident)
  /\ getImageUrl (Some ident)
     = Some (lit "http://localhost:8080/api/files/" ++ ident).
Proof.
  intros Hne H1 H2 H3. split.
  - unfold getImageUrl at 2. apply falsy_false_iff in Hne.
    rewrite Hne, H1, H2, H3. reflexivity.
  - unfold getImageUrl. apply falsy_false_iff in Hne.
    rewrite Hne, H1, H2, H3. reflexivity.
Qed.

Lemma bare_and_rooted_resolve_alike_witness :
  getImageUrl (Some (lit "/api/files/pitch-01.jpg"))
  = getImageUrl (Some (lit "pitch-01.jpg")).
Proof.
  assert (Hne : lit "pitch-01.jpg" <> []) by (vm_compute; discriminate).
  destruct (@bare_and_rooted_resolve_alike (lit "pitch-01.jpg") Hne
              eq_refl eq_refl eq_refl) as [A _].
  exact A.
Defined.
